(** * Interlock tree parser: path reconstruction and line parsing

    A shallow embedding of [Interlock/interlock_tree_parser.py] and the
    properties of its line parser, path stack, classifier and counters.

    Python values are modelled as follows.
    - [str]: a list of Unicode code points ([list N]); Python indexes,
      strips and matches strings code point by code point.
    - [int]: [Z].
    - [list] used as the path stack: [list (list N)], passed in and out
      explicitly because [update_path] mutates its argument.
    - [defaultdict(int)]: a [gmap] from extension to count, a missing key
      reading as 0.
    - exceptions: the [result] type below. *)

From Stdlib Require Import ZArith NArith Lia String Ascii DecimalPos.
From stdpp Require Import gmap list fin_maps.
From Equations Require Import Equations.

Local Open Scope Z_scope.

Abbreviation pystr := (list N).

(** ** Results of fallible Python code *)

Inductive exn := IndexError.

Inductive result (A : Type) :=
| Ok (a : A)
| Raise (e : exn).
Arguments Ok {A} a.
Arguments Raise {A} e.

Definition bind {A B} (r : result A) (f : A -> result B) : result B :=
  match r with
  | Ok a => f a
  | Raise e => Raise e
  end.

(** ** Characters *)

Module Chr.
Definition LF : N := 0x0A.
Definition CR : N := 0x0D.
Definition SPACE : N := 0x20.
Definition LPAREN : N := 0x28.
Definition RPAREN : N := 0x29.
Definition DOT : N := 0x2E.
Definition NBSP : N := 0xA0.
(** Box-drawing glyphs, in the order of the list in [parse_tree_line]. *)
Definition VERT : N := 0x2502.        (* │ *)
Definition HORIZ : N := 0x2500.       (* ─ *)
Definition UP_RIGHT : N := 0x2514.    (* └ *)
Definition VERT_RIGHT : N := 0x251C.  (* ├ *)
Definition DOWN_HORIZ : N := 0x252C.  (* ┬ *)
Definition UP_HORIZ : N := 0x2534.    (* ┴ *)
Definition UP_LEFT : N := 0x2518.     (* ┘ *)
Definition DOWN_RIGHT : N := 0x250C.  (* ┌ *)
Definition DOWN_LEFT : N := 0x2510.   (* ┐ *)
Definition CROSS : N := 0x253C.       (* ┼ *)
End Chr.

(** An ASCII literal as a Python string. *)
Definition lit (s : string) : pystr := map N_of_ascii (list_ascii_of_string s).

(** [c in l] for a character and a list of characters. *)
Definition char_in (c : N) (l : list N) : bool := existsb (N.eqb c) l.

(** [str.isspace] for one code point, which is also what [\s] matches in a
    [str] pattern: the white space table of CPython's Unicode database. *)
Definition isspace (c : N) : bool :=
  (((0x09 <=? c) && (c <=? 0x0D)) || ((0x1C <=? c) && (c <=? 0x20))
   || (c =? 0x85) || (c =? 0xA0) || (c =? 0x1680)
   || ((0x2000 <=? c) && (c <=? 0x200A))
   || (c =? 0x2028) || (c =? 0x2029) || (c =? 0x202F) || (c =? 0x205F)
   || (c =? 0x3000))%N.

(** ** String methods *)

Fixpoint drop_while (p : N -> bool) (s : pystr) : pystr :=
  match s with
  | [] => []
  | c :: s' => if p c then drop_while p s' else s
  end.

Definition lstrip_by (p : N -> bool) (s : pystr) : pystr := drop_while p s.
Definition rstrip_by (p : N -> bool) (s : pystr) : pystr :=
  rev (drop_while p (rev s)).

(** [s.strip()] *)
Definition strip (s : pystr) : pystr := rstrip_by isspace (lstrip_by isspace s).

(** [s.rstrip(chars)] *)
Definition rstrip_chars (chars : list N) (s : pystr) : pystr :=
  rstrip_by (fun c => char_in c chars) s.

(** [sep.join(l)] *)
Fixpoint join (sep : pystr) (l : list pystr) : pystr :=
  match l with
  | [] => []
  | [x] => x
  | x :: l' => x ++ sep ++ join sep l'
  end.

(** [s.split(sep)] for a one-character separator: [cur] holds the piece
    being read. The result is never empty. *)
Fixpoint split_acc (sep : N) (cur : pystr) (s : pystr) : list pystr :=
  match s with
  | [] => [cur]
  | c :: s' => if (c =? sep)%N then cur :: split_acc sep [] s'
               else split_acc sep (cur ++ [c]) s'
  end.
Definition split (sep : N) (s : pystr) : list pystr := split_acc sep [] s.

(** ** A backtracking matcher for the patterns of the program

    Each combinator takes the continuation that matches the rest of the
    pattern; the continuation receives the number of characters consumed so
    far and the remaining input. [star] is greedy and backtracks like the
    [re] module does: it first tries to take one more character and gives
    back characters one at a time when the rest of the pattern fails. *)

Module Re.
Section Combinators.
Context {A : Type}.
Definition kont := nat -> pystr -> option A.

(** [x*] for a character class [x] *)
Fixpoint star (p : N -> bool) (k : kont) (n : nat) (s : pystr) : option A :=
  match s with
  | [] => k n []
  | c :: s' =>
      if p c then
        match star p k (S n) s' with
        | Some r => Some r
        | None => k n s
        end
      else k n s
  end.

(** a single character of a class *)
Definition one (p : N -> bool) (k : kont) (n : nat) (s : pystr) : option A :=
  match s with
  | c :: s' => if p c then k (S n) s' else None
  | [] => None
  end.

(** [x+] *)
Definition plus (p : N -> bool) (k : kont) : kont := one p (star p k).

(** [$] without MULTILINE: the end of the string, or just before a line
    feed that ends the string. *)
Definition dollar (k : kont) (n : nat) (s : pystr) : option A :=
  match s with
  | [] => k n s
  | [c] => if (c =? Chr.LF)%N then k n s else None
  | _ => None
  end.
End Combinators.

(** [.] without DOTALL: anything but a line feed. *)
Definition dot (c : N) : bool := negb (c =? Chr.LF)%N.

(** [re.sub(pattern, repl, s)] for a pattern that cannot match the empty
    string. [m] matches the pattern at the start of its argument and
    returns the length of the match; [skip] counts the characters of the
    current match that are still to be dropped. The scan goes left to
    right and resumes after each match. *)
Fixpoint sub (m : pystr -> option nat) (repl : pystr) (skip : nat) (s : pystr)
  : pystr :=
  match s with
  | [] => []
  | c :: s' =>
      match skip with
      | S k => sub m repl k s'
      | O =>
          match m s with
          | Some (S k) => repl ++ sub m repl k s'
          | _ => c :: sub m repl 0 s'
          end
      end
  end.
End Re.

(** ** parse_tree_line *)

(** The list of line 19: characters that do not start the content. *)
Definition TREE_CHARS : list N :=
  [Chr.SPACE; Chr.NBSP; Chr.VERT; Chr.HORIZ; Chr.UP_RIGHT; Chr.VERT_RIGHT;
   Chr.DOWN_HORIZ; Chr.UP_HORIZ; Chr.UP_LEFT; Chr.DOWN_RIGHT; Chr.DOWN_LEFT;
   Chr.CROSS].

(** The [for i, char in enumerate(raw_line)] loop: the index of the first
    character outside [TREE_CHARS]; [content_start_index] keeps its initial
    value 0 when the loop ends without [break]. *)
Fixpoint content_start (i : Z) (s : pystr) : Z :=
  match s with
  | [] => 0
  | c :: s' => if negb (char_in c TREE_CHARS) then i else content_start (i + 1) s'
  end.

(** The class [[│─└├\s\xa0]] of TREE_PREFIX_PATTERN. *)
Definition prefix_class (c : N) : bool :=
  char_in c [Chr.VERT; Chr.HORIZ; Chr.UP_RIGHT; Chr.VERT_RIGHT]
  || isspace c || (c =? Chr.NBSP)%N.

(** [TREE_PREFIX_PATTERN.match(raw_line)]. The pattern of line 27 is, from
    left to right: the anchor at the start, a greedy star of the prefix
    class (in a group that is not captured), group 1 as a greedy star of
    [.], and [$]. The result is [None] when there is no match, otherwise
    [group(1)], cut out of the line by the span of the group. *)
Definition TREE_PREFIX_PATTERN_match (raw_line : pystr) : option pystr :=
  Re.star prefix_class
    (fun n1 s1 =>
       Re.star Re.dot
         (fun n2 s2 =>
            Re.dollar (fun _ _ => Some (take (n2 - n1) (drop n1 raw_line))) n2 s2)
         n1 s1)
    0%nat raw_line.

(** [\s+] at the start of the input: the length of the match. *)
Definition ws_run_match (s : pystr) : option nat :=
  Re.plus isspace (fun n _ => Some n) 0%nat s.

Record item := {
  line_num : Z;
  raw_line : pystr;
  indent_level : Z;
  item_name : pystr;
  full_path : option pystr  (* the key 'full_path', set by the caller *)
}.

Definition parse_tree_line (line_num : Z) (raw_line : pystr) : option item :=
  let content_start_index := content_start 0 raw_line in
  let current_indent_level := content_start_index `div` 4 in
  match TREE_PREFIX_PATTERN_match raw_line with
  | None => None
  | Some group1 =>
      let item_name_raw := strip group1 in
      let item_name_cleaned := strip (Re.sub ws_run_match (lit " ") 0 item_name_raw) in
      Some {| line_num := line_num;
              raw_line := raw_line;
              indent_level := current_indent_level;
              item_name := item_name_cleaned;
              full_path := None |}
  end.

(** ** update_path *)

(** [l[i] = v] with Python's indices: a negative index counts from the end,
    an index out of range raises IndexError. *)
Definition list_setitem {A} (l : list A) (i : Z) (v : A) : result (list A) :=
  let n := Z.of_nat (length l) in
  if decide (0 <= i < n) then Ok (<[Z.to_nat i := v]> l)
  else if decide (- n <= i < 0) then Ok (<[Z.to_nat (n + i) := v]> l)
  else Raise IndexError.

(** [while len(current_path) > current_indent_level: current_path.pop()].
    [pop] removes the last element and raises IndexError on an empty
    list. *)
Equations? pop_loop (current_path : list pystr) (current_indent_level : Z)
  : result (list pystr) by wf (length current_path) lt :=
  pop_loop cp L with decide (Z.of_nat (length cp) > L) => {
    | right _ := Ok cp;
    | left _ with cp => {
        | [] := Raise IndexError;
        | x :: xs := pop_loop (removelast (x :: xs)) L } }.
Proof.
  change (length (removelast (x :: xs)) < S (length xs))%nat.
  rewrite removelast_firstn_len, length_firstn. simpl. lia.
Qed.

(** [while len(current_path) < current_indent_level: current_path.append("")] *)
Equations? pad_loop (current_path : list pystr) (current_indent_level : Z)
  : result (list pystr)
  by wf (Z.to_nat (current_indent_level - Z.of_nat (length current_path))) lt :=
  pad_loop cp L with decide (Z.of_nat (length cp) < L) => {
    | right _ := Ok cp;
    | left _ := pad_loop (cp ++ [[]]) L }.
Proof. rewrite length_app. simpl. lia. Qed.

(** The stack after both loops of [update_path]. *)
Definition adjust_path (current_path : list pystr) (current_indent_level : Z)
  : result (list pystr) :=
  bind (pop_loop current_path current_indent_level)
       (fun cp => pad_loop cp current_indent_level).

(** [update_path(current_path, item, current_indent_level)]: the list object
    after the call and the returned string. *)
Definition update_path (current_path : list pystr) (it : item)
    (current_indent_level : Z) : result (list pystr * pystr) :=
  bind (adjust_path current_path current_indent_level) (fun cp =>
  bind (if decide (Z.of_nat (length cp) = current_indent_level)
        then Ok (cp ++ [item_name it])
        else list_setitem cp current_indent_level (item_name it)) (fun cp' =>
  Ok (cp', join (lit "/") cp'))).

Definition mk_item (n : Z) (raw : pystr) (lvl : Z) (name : pystr) : item :=
  {| line_num := n; raw_line := raw; indent_level := lvl; item_name := name;
     full_path := None |}.

(** ** is_file and the main loop *)

(** The pattern of lines 48 and 192 at the start of the input, from left to
    right: a greedy star of [\s], an opening parenthesis, a greedy star of
    the class of everything but a closing parenthesis, a closing
    parenthesis, and [$]. The result is the length of the match. *)
Definition SIZE_PATTERN_match (s : pystr) : option nat :=
  Re.star isspace
    (Re.one (N.eqb Chr.LPAREN)
       (Re.star (fun c => negb (c =? Chr.RPAREN)%N)
          (Re.one (N.eqb Chr.RPAREN)
             (Re.dollar (fun n _ => Some n)))))
    0%nat s.

(** [re.sub(<size pattern>, '', item_name)] *)
Definition strip_size (item_name : pystr) : pystr :=
  Re.sub SIZE_PATTERN_match [] 0 item_name.

(** [str.lower] on ASCII: the letters A to Z. *)
Definition ascii_lower (c : N) : N :=
  if ((0x41 <=? c) && (c <=? 0x5A))%N then (c + 0x20)%N else c.

(** What is known of [str.lower]: on a string of ASCII characters it lowers
    the letters A to Z and nothing else. *)
Definition lower_on_ascii (lower : pystr -> pystr) : Prop :=
  forall s, Forall (fun c => (c < 0x80)%N) s -> lower s = map ascii_lower s.

(** The state of a run of [process_tree_file]: its local variables, the
    items handed to [write_item_output] in order, and [seen], a history of
    every item that reached [update_path] (with its [full_path]); [seen] is
    not a variable of the program, it records what the loop did. *)
Record run_state := {
  current_path : list pystr;
  files_count : Z;
  total_lines_processed : Z;
  extensions : gmap pystr Z;
  written : list item;
  seen : list item
}.

Definition initial_state : run_state :=
  {| current_path := []; files_count := 0; total_lines_processed := 0;
     extensions := ∅; written := []; seen := [] |}.

Definition set_full_path (it : item) (p : pystr) : item :=
  {| line_num := line_num it; raw_line := raw_line it;
     indent_level := indent_level it; item_name := item_name it;
     full_path := Some p |}.

(** [d[k] += 1] on a [defaultdict(int)] *)
Definition incr (k : pystr) (d : gmap pystr Z) : gmap pystr Z :=
  <[k := default 0 (d !! k) + 1]> d.

Section Run.
(** [FILE_EXTENSIONS] comes from the module [file_extensions], and
    [py_lower] is [str.lower]; both are taken as given. *)
Variable FILE_EXTENSIONS : list pystr.
Variable py_lower : pystr -> pystr.

Definition is_file (item_name : pystr) : bool :=
  let clean_name := strip_size item_name in
  if char_in Chr.DOT clean_name then
    let extension :=
      lit "." ++ py_lower (List.last (split Chr.DOT clean_name) []) in
    bool_decide (extension ∈ FILE_EXTENSIONS)
  else false.

(** One iteration of [for raw_line in f]. The progress bar, the progress
    messages and the flushes are left out. *)
Definition loop_body (files_only : bool) (st : run_state) (raw_line : pystr)
  : result run_state :=
  let total := total_lines_processed st + 1 in
  let raw_line := rstrip_chars [Chr.LF; Chr.CR] raw_line in
  let skip := {| current_path := current_path st; files_count := files_count st;
                 total_lines_processed := total; extensions := extensions st;
                 written := written st; seen := seen st |} in
  match strip raw_line with
  | [] => Ok skip
  | _ :: _ =>
      match parse_tree_line total raw_line with
      | None => Ok skip
      | Some it =>
          bind (update_path (current_path st) it (indent_level it))
            (fun '(cp, path) =>
               let it := set_full_path it path in
               if is_file (item_name it) then
                 let clean_name := strip_size (item_name it) in
                 let exts :=
                   if char_in Chr.DOT clean_name then
                     incr (py_lower (List.last (split Chr.DOT clean_name) []))
                          (extensions st)
                   else extensions st in
                 Ok {| current_path := cp;
                       files_count := files_count st + 1;
                       total_lines_processed := total;
                       extensions := exts;
                       written := if files_only then written st ++ [it]
                                  else written st;
                       seen := seen st ++ [it] |}
               else
                 Ok {| current_path := cp;
                       files_count := files_count st;
                       total_lines_processed := total;
                       extensions := extensions st;
                       written := if negb files_only then written st ++ [it]
                                  else written st;
                       seen := seen st ++ [it] |})
      end
  end.

(** The loop over the lines of the file. *)
Fixpoint process_lines (files_only : bool) (st : run_state)
    (lines : list pystr) : result run_state :=
  match lines with
  | [] => Ok st
  | raw_line :: rest =>
      bind (loop_body files_only st raw_line)
           (fun st' => process_lines files_only st' rest)
  end.

(** [process_tree_file] on the lines of its input, from the initial
    values of line 149 to 152. *)
Definition process_tree_file (files_only : bool) (lines : list pystr)
  : result run_state :=
  process_lines files_only initial_state lines.
End Run.

(** ** Definitions used to state the properties *)

(** The longest prefix of characters of a class, the counterpart of
    [drop_while]. *)
Fixpoint take_while (p : N -> bool) (s : pystr) : pystr :=
  match s with
  | [] => []
  | c :: s' => if p c then c :: take_while p s' else []
  end.

(** The test of [Re.dollar]. *)
Definition at_end (s : pystr) : bool :=
  match s with
  | [] => true
  | [c] => (c =? Chr.LF)%N
  | _ => false
  end.

(** Every white space character is a plain space. *)
Definition all_ws_plain (s : pystr) : bool :=
  forallb (fun c => implb (isspace c) (c =? Chr.SPACE)%N) s.

(** No two white space characters in a row. *)
Fixpoint no_ws_pair (s : pystr) : bool :=
  match s with
  | [] => true
  | c1 :: s' =>
      match s' with
      | c2 :: _ => negb (isspace c1 && isspace c2)
      | [] => true
      end && no_ws_pair s'
  end.

Definition head_not_ws (s : pystr) : bool :=
  match s with
  | c :: _ => negb (isspace c)
  | [] => true
  end.

(** No leading and no trailing white space. *)
Definition trimmed (s : pystr) : bool := head_not_ws s && head_not_ws (rev s).

(** A name as the line parser promises it. *)
Definition normalized (s : pystr) : bool :=
  all_ws_plain s && no_ws_pair s && trimmed s.

(** The first character, if any, is outside the class of the prefix
    pattern. *)
Definition head_not_prefix (s : pystr) : bool :=
  match s with
  | c :: _ => negb (prefix_class c)
  | [] => true
  end.

(** The sum of all counts of the tally. *)
Definition tally_sum (d : gmap pystr Z) : Z :=
  map_fold (fun _ v acc => v + acc) 0 d.

(** Whether a line of the file gets as far as [update_path]: it is not
    blank once its line break is removed, and the line parser returns an
    item for it. *)
Definition yields_item (raw_line : pystr) : bool :=
  let raw_line := rstrip_chars [Chr.LF; Chr.CR] raw_line in
  match strip raw_line with
  | [] => false
  | _ :: _ =>
      match parse_tree_line 0 raw_line with
      | Some _ => true
      | None => false
      end
  end.

(** What holds of the state after any number of lines. *)
Definition run_invariant (FILE_EXTENSIONS : list pystr)
    (py_lower : pystr -> pystr) (st : run_state) : Prop :=
  tally_sum (extensions st) = files_count st /\
  files_count st
  = Z.of_nat (length (List.filter
                        (fun it => is_file FILE_EXTENSIONS py_lower (item_name it)
                                   && char_in Chr.DOT (strip_size (item_name it)))
                        (seen st))).

(** The substring after the last occurrence of a character, when there is
    one: the final extension of a name as the specification words it. *)
Fixpoint after_last (sep : N) (s : pystr) : option pystr :=
  match s with
  | [] => None
  | c :: s' =>
      match after_last sep s' with
      | Some r => Some r
      | None => if (c =? sep)%N then Some s' else None
      end
  end.

(** The classifier as the specification words it: a name is a file when,
    once the trailing parenthesized group is stripped, it has a final
    extension whose lowercase form is recognized. [FILE_EXTENSIONS] lists
    the recognized extensions with their leading dot. *)
Definition is_file_spec (FILE_EXTENSIONS : list pystr)
    (py_lower : pystr -> pystr) (name : pystr) : bool :=
  match after_last Chr.DOT (strip_size name) with
  | Some e => bool_decide (lit "." ++ py_lower e ∈ FILE_EXTENSIONS)
  | None => false
  end.

(** Lines used as examples below. *)
Definition line_with_inner_glyph : pystr := lit "a" ++ [Chr.VERT] ++ lit "b".

Definition sample_line : pystr :=
  [Chr.VERT] ++ lit "   " ++ [Chr.VERT_RIGHT; Chr.HORIZ; Chr.HORIZ]
  ++ lit " my " ++ [Chr.NBSP] ++ lit "  file.txt  ".

Definition decoration_line : pystr := [Chr.VERT] ++ lit "   ".

Definition scenario_lines : list pystr :=
  [lit "Root"; lit "    fileA.txt (10 KB)"; lit "    SubDir"; lit "        fileB.py"].

(** ** Further definitions used to state properties *)

(** Whether a line has a character outside [TREE_CHARS], so that the loop
    of [parse_tree_line] ends with [break]. *)
Definition has_content (raw_line : pystr) : bool :=
  existsb (fun c => negb (char_in c TREE_CHARS)) raw_line.

(** The separator of [update_path]. *)
Definition SLASH : N := 0x2F.

(** The 1-based positions, counted from [i], of the lines that yield an
    item. *)
Fixpoint item_positions (i : Z) (lines : list pystr) : list Z :=
  match lines with
  | [] => []
  | raw_line :: rest =>
      if yields_item raw_line then i :: item_positions (i + 1) rest
      else item_positions (i + 1) rest
  end.

(** Which items [process_tree_file] hands to [write_item_output]: the
    files in files-only mode, and the items that are not files otherwise
    (the branch of line 200 is the [elif] of the test of line 188). *)
Definition is_written (FILE_EXTENSIONS : list pystr) (py_lower : pystr -> pystr)
    (files_only : bool) (it : item) : bool :=
  if files_only then is_file FILE_EXTENSIONS py_lower (item_name it)
  else negb (is_file FILE_EXTENSIONS py_lower (item_name it)).

(** The path stack and the last item seen agree: the stack is empty before
    the first item; afterwards it has one entry per level up to the level
    of the last item, ends with its name, and joins to its full path. *)
Definition stack_agrees (st : run_state) : Prop :=
  match last (seen st) with
  | None => current_path st = []
  | Some it =>
      Z.of_nat (length (current_path st)) = indent_level it + 1 /\
      last (current_path st) = Some (item_name it) /\
      full_path it = Some (join (lit "/") (current_path st))
  end.

(** ** The writers *)

(** The digits of a decimal number, most significant first. *)
Fixpoint uint_chars (u : Decimal.uint) : pystr :=
  match u with
  | Decimal.Nil => []
  | Decimal.D0 u => 0x30%N :: uint_chars u
  | Decimal.D1 u => 0x31%N :: uint_chars u
  | Decimal.D2 u => 0x32%N :: uint_chars u
  | Decimal.D3 u => 0x33%N :: uint_chars u
  | Decimal.D4 u => 0x34%N :: uint_chars u
  | Decimal.D5 u => 0x35%N :: uint_chars u
  | Decimal.D6 u => 0x36%N :: uint_chars u
  | Decimal.D7 u => 0x37%N :: uint_chars u
  | Decimal.D8 u => 0x38%N :: uint_chars u
  | Decimal.D9 u => 0x39%N :: uint_chars u
  end.

(** [f"{n}"] for an int: its decimal digits, after a minus sign when it is
    negative. *)
Definition str_int (n : Z) : pystr :=
  match n with
  | Z0 => lit "0"
  | Zpos p => uint_chars (Pos.to_uint p)
  | Zneg p => lit "-" ++ uint_chars (Pos.to_uint p)
  end.

(** A comma after every third digit, on the digits from the least
    significant one. *)
Fixpoint commas (rev_digits : pystr) : pystr :=
  match rev_digits with
  | a :: b :: c :: rest =>
      match rest with
      | [] => rev_digits
      | _ :: _ => a :: b :: c :: 0x2C%N :: commas rest
      end
  | _ => rev_digits
  end.

(** [f"{n:,}"] for an int: its decimal digits in groups of three. *)
Definition format_comma (n : Z) : pystr :=
  match n with
  | Z0 => lit "0"
  | Zpos p => rev (commas (rev (uint_chars (Pos.to_uint p))))
  | Zneg p => lit "-" ++ rev (commas (rev (uint_chars (Pos.to_uint p))))
  end.

(** What reaches the sink: [output_file.write(text)] when there is an
    output file, [print(text.rstrip())] otherwise; [print] ends its
    argument with a line feed. *)
Definition emit (to_file : bool) (text : pystr) : pystr :=
  if to_file then text else rstrip_by isspace text ++ [Chr.LF].

(** [write_item_output(output_file, item)]: the characters sent to the
    sink, or [None] when the item has no key ['full_path'] (KeyError). *)
Definition write_item_output (to_file : bool) (it : item) : option pystr :=
  match full_path it with
  | None => None
  | Some path =>
      let output_text :=
        lit "Line " ++ str_int (line_num it) ++ lit " (Level "
        ++ str_int (indent_level it) ++ lit "):" ++ [Chr.LF] in
      let output_text :=
        output_text ++ lit "  Item Name: '" ++ item_name it ++ lit "'" ++ [Chr.LF] in
      let output_text :=
        output_text ++ lit "  Full Path: '" ++ path ++ lit "'" ++ [Chr.LF] in
      let output_text := output_text ++ replicate 20 0x2D%N ++ [Chr.LF] in
      Some (emit to_file output_text)
  end.

(** [write_section_header(output_file, title)] *)
Definition write_section_header (to_file : bool) (title : pystr) : pystr :=
  let header := [Chr.LF] ++ lit "--- " ++ title ++ lit " ---" ++ [Chr.LF] in
  emit to_file header.

(** [sorted(items, key=lambda x: x[1], reverse=True)]: a stable sort by
    decreasing count. Each item is put in front of the sorted items that
    follow it in the input, after those with a greater count. *)
Fixpoint insert_by_count (x : pystr * Z) (l : list (pystr * Z))
  : list (pystr * Z) :=
  match l with
  | [] => [x]
  | y :: l' => if snd x <? snd y then y :: insert_by_count x l' else x :: l
  end.

Definition sorted_by_count (items : list (pystr * Z)) : list (pystr * Z) :=
  foldr insert_by_count [] items.

(** One line of the file types section. *)
Definition file_type_line (entry : pystr * Z) : pystr :=
  lit "  ." ++ fst entry ++ lit ": " ++ format_comma (snd entry)
  ++ lit " files" ++ [Chr.LF].

(** [write_statistics(output_file, total_lines, files_count, extensions,
    files_only)]; [extensions] is given by its items in insertion order. *)
Definition write_statistics (to_file : bool) (total_lines files_count : Z)
    (extensions : list (pystr * Z)) (files_only : bool) : pystr :=
  let stats_text := [Chr.LF] ++ lit "=== Final Statistics ===" ++ [Chr.LF] in
  let stats_text :=
    stats_text ++ lit "Total lines processed: " ++ format_comma total_lines
    ++ [Chr.LF] in
  let stats_text :=
    stats_text ++ lit "Files found: " ++ format_comma files_count ++ [Chr.LF] in
  let stats_text :=
    if match extensions with [] => false | _ :: _ => true end && files_only then
      foldl (fun text entry => text ++ file_type_line entry)
            (stats_text ++ [Chr.LF] ++ lit "File types found:" ++ [Chr.LF])
            (sorted_by_count extensions)
    else stats_text in
  emit to_file stats_text.

(** Counts that never go up along a list of tally entries. *)
Fixpoint counts_decreasing (l : list (pystr * Z)) : bool :=
  match l with
  | [] => true
  | x :: l' =>
      match l' with
      | [] => true
      | y :: _ => snd y <=? snd x
      end && counts_decreasing l'
  end.

(** A decimal digit. *)
Definition is_digit (c : N) : bool := ((0x30 <=? c) && (c <=? 0x39))%N.

(** * Properties *)

(** ** The model on sample inputs *)

Example parse_ex1 :
  parse_tree_line 3 ([Chr.VERT] ++ lit "   " ++ [Chr.VERT_RIGHT; Chr.HORIZ; Chr.HORIZ]
                       ++ lit " my   file.txt  ")
  = Some {| line_num := 3;
            raw_line := [Chr.VERT] ++ lit "   " ++ [Chr.VERT_RIGHT; Chr.HORIZ; Chr.HORIZ]
                       ++ lit " my   file.txt  ";
            indent_level := 2; item_name := lit "my file.txt"; full_path := None |}.
Proof. reflexivity. Qed.

Example update_path_ex1 :
  update_path [lit "a"; lit "b"; lit "c"] (mk_item 1 [] 1 (lit "x")) 1
  = Ok ([lit "a"; lit "x"], lit "a/x").
Proof. reflexivity. Qed.

Example update_path_ex2 :
  update_path [lit "a"] (mk_item 1 [] 3 (lit "x")) 3
  = Ok ([lit "a"; []; []; lit "x"], lit "a///x").
Proof. vm_compute. reflexivity. Qed.

Example update_path_ex3 :
  update_path [lit "a"] (mk_item 1 [] (-1) (lit "x")) (-1) = Raise IndexError.
Proof. vm_compute. reflexivity. Qed.

Example strip_size_ex1 :
  strip_size (lit "archive.tar.gz (1.2 MB)") = lit "archive.tar.gz".
Proof. reflexivity. Qed.

Example strip_size_ex2 : strip_size (lit "a (b) (c)") = lit "a (b)".
Proof. reflexivity. Qed.

Example strip_size_ex3 : strip_size (lit "a (b (c)") = lit "a".
Proof. reflexivity. Qed.

Example is_file_ex1 :
  is_file [lit ".gz"] (map ascii_lower) (lit "archive.tar.GZ (1.2 MB)") = true.
Proof. reflexivity. Qed.

Example run_ex1 :
  match process_tree_file [lit ".txt"] (map ascii_lower) false
          [lit "Root"; lit ""; lit "    a.txt"] with
  | Ok st => total_lines_processed st = 3 /\ files_count st = 1
             /\ extensions st !! lit "txt" = Some 1
             /\ map full_path (seen st) = [Some (lit "Root"); Some (lit "Root/a.txt")]
  | Raise _ => False
  end.
Proof. vm_compute. repeat split; reflexivity. Qed.

(** ** The path stack *)

Section PathStack.
Implicit Types (cp : list pystr) (L : Z).

(** With a non-negative level the first loop cuts the stack to at most
    [L] entries. *)
Lemma pop_loop_take cp L :
  0 <= L -> pop_loop cp L = Ok (take (Z.to_nat L) cp).
Proof.
  intros HL. funelim (pop_loop cp L).
  - rewrite take_ge by lia. reflexivity.
  - simpl in *. lia.
  - rewrite H by assumption. f_equal.
    rewrite removelast_firstn_len.
    change firstn with (@take pystr). rewrite take_take. f_equal.
    simpl length in *. lia.
Qed.

(** With a negative level it pops the empty stack. *)
Lemma pop_loop_negative cp L : L < 0 -> pop_loop cp L = Raise IndexError.
Proof.
  intros HL. funelim (pop_loop cp L).
  - lia.
  - reflexivity.
  - auto.
Qed.

(** The second loop always ends and fills the stack up to [L] entries. *)
Lemma pad_loop_replicate cp L :
  pad_loop cp L
  = Ok (cp ++ replicate (Z.to_nat (L - Z.of_nat (length cp))) []).
Proof.
  funelim (pad_loop cp L).
  - rewrite H. f_equal. rewrite <- app_assoc. f_equal.
    rewrite length_app. simpl length.
    replace (Z.to_nat (L - Z.of_nat (length cp)))
      with (S (Z.to_nat (L - Z.of_nat (length cp + 1)))) by lia.
    reflexivity.
  - replace (Z.to_nat (L - Z.of_nat (length cp))) with 0%nat by lia.
    now rewrite app_nil_r.
Qed.

Lemma adjust_path_nonneg cp L :
  0 <= L ->
  adjust_path cp L
  = Ok (take (Z.to_nat L) cp
        ++ replicate (Z.to_nat (L - Z.of_nat (length (take (Z.to_nat L) cp)))) []).
Proof.
  intros HL. unfold adjust_path. rewrite pop_loop_take by assumption.
  simpl. apply pad_loop_replicate.
Qed.

Lemma adjust_path_negative cp L : L < 0 -> adjust_path cp L = Raise IndexError.
Proof.
  intros HL. unfold adjust_path. now rewrite pop_loop_negative.
Qed.

(** Whenever both loops end, the stack has exactly [L] entries. *)
Lemma adjust_path_length cp L cp1 :
  adjust_path cp L = Ok cp1 -> Z.of_nat (length cp1) = L.
Proof.
  destruct (Z_lt_le_dec L 0) as [Hneg|Hpos].
  - rewrite adjust_path_negative by assumption. discriminate.
  - rewrite adjust_path_nonneg by assumption. intros [= <-].
    rewrite length_app, length_replicate, length_take. lia.
Qed.
End PathStack.

Section UpdatePath.
Implicit Types (cp : list pystr) (L : Z) (it : item).

(** The test of line 69 never fails: [update_path] is its two loops
    followed by an append. *)
Lemma update_path_unfold cp it L :
  update_path cp it L
  = bind (adjust_path cp L)
      (fun cp1 => Ok (cp1 ++ [item_name it],
                      join (lit "/") (cp1 ++ [item_name it]))).
Proof.
  unfold update_path.
  destruct (adjust_path cp L) as [cp1|e] eqn:E; [|reflexivity].
  apply adjust_path_length in E. simpl.
  destruct (decide (Z.of_nat (length cp1) = L)); [reflexivity|contradiction].
Qed.

Lemma update_path_nonneg cp it L :
  0 <= L ->
  exists cp1,
    adjust_path cp L = Ok cp1 /\ Z.of_nat (length cp1) = L /\
    update_path cp it L
    = Ok (cp1 ++ [item_name it], join (lit "/") (cp1 ++ [item_name it])).
Proof.
  intros HL. rewrite update_path_unfold.
  destruct (adjust_path cp L) as [cp1|e] eqn:E.
  - exists cp1. repeat split. now apply adjust_path_length in E.
  - rewrite adjust_path_nonneg in E by assumption. discriminate.
Qed.

(** C1. For every stack, item and indentation level [L >= 0],
    [update_path] returns, and the stack it leaves has exactly [L + 1]
    entries. *)
Theorem update_path_stack_length cp it L :
  0 <= L ->
  exists cp' path,
    update_path cp it L = Ok (cp', path) /\ Z.of_nat (length cp') = L + 1.
Proof.
  intros HL. destruct (update_path_nonneg cp it L HL) as (cp1 & _ & Hlen & ->).
  eexists _, _. split; [reflexivity|].
  rewrite length_app. simpl. lia.
Qed.

(** C10. After the truncation loop and the padding loop the stack has
    exactly [L] entries, for every call in which the loops end; so
    [update_path] always takes the append branch: it behaves as the two
    loops followed by [current_path.append(item['item_name'])], and the
    assignment of line 72 is never run. *)
Theorem update_path_overwrite_unreachable cp it L :
  (forall cp1, adjust_path cp L = Ok cp1 ->
     Z.of_nat (length cp1) = L /\
     (if decide (Z.of_nat (length cp1) = L) then true else false) = true) /\
  update_path cp it L
  = bind (adjust_path cp L)
      (fun cp1 => Ok (cp1 ++ [item_name it],
                      join (lit "/") (cp1 ++ [item_name it]))).
Proof.
  split; [|apply update_path_unfold].
  intros cp1 E. apply adjust_path_length in E. split; [assumption|].
  destruct (decide (Z.of_nat (length cp1) = L)); [reflexivity|contradiction].
Qed.

(** C5. A level-2 item right after a level-0 item: both calls return,
    the second one leaves the stack [[name0; ""; name2]], with one
    empty-string placeholder at index 1, and returns
    [name0 + "//" + name2]; the placeholder is the only empty segment
    unless one of the two names is itself empty. For the names Root and
    Deep the path is Root//Deep. *)
Theorem update_path_skipped_level cp it0 it2 :
  (exists cp0 path0,
     update_path cp it0 0 = Ok (cp0, path0) /\
     update_path cp0 it2 2
     = Ok ([item_name it0; []; item_name it2],
           item_name it0 ++ lit "//" ++ item_name it2)) /\
  length (filter (fun seg => seg = []) [item_name it0; []; item_name it2])
  = ((if decide (item_name it0 = []) then 1 else 0) + 1
     + (if decide (item_name it2 = []) then 1 else 0))%nat /\
  update_path [] (mk_item 1 (lit "Root") 0 (lit "Root")) 0
  = Ok ([lit "Root"], lit "Root") /\
  update_path [lit "Root"] (mk_item 2 (lit "        Deep") 2 (lit "Deep")) 2
  = Ok ([lit "Root"; lit ""; lit "Deep"], lit "Root//Deep").
Proof.
  assert (H0 : update_path cp it0 0
               = Ok ([item_name it0], item_name it0)).
  { rewrite update_path_unfold, adjust_path_nonneg by lia. reflexivity. }
  assert (H2 : update_path [item_name it0] it2 2
               = Ok ([item_name it0; []; item_name it2],
                     item_name it0 ++ lit "//" ++ item_name it2)).
  { rewrite update_path_unfold, adjust_path_nonneg by lia. reflexivity. }
  split; [|split; [|split]].
  - exists [item_name it0], (item_name it0). split; [exact H0|exact H2].
  - rewrite !filter_cons, filter_nil.
    repeat case_decide; try congruence; reflexivity.
  - reflexivity.
  - reflexivity.
Qed.
End UpdatePath.

Lemma update_path_stack_length_witness :
  0 <= 1 /\
  exists cp' path,
    update_path [lit "a"; lit "b"; lit "c"] (mk_item 7 [] 1 (lit "x")) 1
    = Ok (cp', path) /\ Z.of_nat (length cp') = 1 + 1.
Proof.
  split; [lia|].
  apply (update_path_stack_length [lit "a"; lit "b"; lit "c"]
           (mk_item 7 [] 1 (lit "x")) 1).
  lia.
Defined.

Lemma update_path_overwrite_unreachable_witness :
  adjust_path [lit "a"; lit "b"; lit "c"] 1 = Ok [lit "a"] /\
  Z.of_nat (length [lit "a"]) = 1.
Proof.
  split; [reflexivity|].
  apply (proj1 (update_path_overwrite_unreachable
                  [lit "a"; lit "b"; lit "c"] (mk_item 7 [] 1 (lit "x")) 1)
           [lit "a"]).
  reflexivity.
Defined.

(** ** Strings and the matcher *)

Section Spans.
Variable p : N -> bool.
Implicit Types (s : pystr) (c : N).

Lemma take_drop_while s : take_while p s ++ drop_while p s = s.
Proof.
  induction s as [|c s IH]; [reflexivity|].
  simpl. destruct (p c); [simpl; now rewrite IH|reflexivity].
Qed.

Lemma take_while_all s : Forall (fun c => p c = true) (take_while p s).
Proof.
  induction s as [|c s IH]; simpl; [constructor|].
  destruct (p c) eqn:E; constructor; assumption.
Qed.

Lemma drop_while_head s :
  match drop_while p s with [] => True | c :: _ => p c = false end.
Proof.
  induction s as [|c s IH]; simpl; [exact I|].
  destruct (p c) eqn:E; [assumption|]. simpl. assumption.
Qed.

Lemma drop_while_all s : Forall (fun c => p c = true) s -> drop_while p s = [].
Proof.
  induction 1 as [|c s Hc _ IH]; simpl; [reflexivity|]. now rewrite Hc.
Qed.

Lemma drop_length_take_while s :
  drop (length (take_while p s)) s = drop_while p s.
Proof.
  induction s as [|c s IH]; [reflexivity|].
  simpl. destruct (p c); [simpl; assumption|reflexivity].
Qed.

Lemma take_length_take_while s :
  take (length (take_while p s)) s = take_while p s.
Proof.
  induction s as [|c s IH]; [reflexivity|].
  simpl. destruct (p c); [simpl; now rewrite IH|reflexivity].
Qed.

(** A character outside the class stops [drop_while]. *)
Lemma drop_while_app_stop s c t :
  p c = false ->
  drop_while p (s ++ c :: t) = drop_while p s ++ c :: t.
Proof.
  intros Hc. induction s as [|d s IH]; simpl.
  - now rewrite Hc.
  - destruct (p d); [assumption|reflexivity].
Qed.

Lemma rstrip_by_cons c s :
  p c = false -> rstrip_by p (c :: s) = c :: rstrip_by p s.
Proof.
  intros Hc. unfold rstrip_by. simpl rev.
  rewrite drop_while_app_stop by assumption.
  rewrite rev_app_distr. reflexivity.
Qed.

(** What [rstrip] removes is a suffix of characters of the class. *)
Lemma rstrip_by_split s :
  exists t, s = rstrip_by p s ++ t /\ Forall (fun c => p c = true) t.
Proof.
  unfold rstrip_by. exists (rev (take_while p (rev s))). split.
  - rewrite <- rev_app_distr, take_drop_while. now rewrite rev_involutive.
  - apply Forall_rev, take_while_all.
Qed.

Lemma rstrip_by_last s t c :
  rstrip_by p s = t ++ [c] -> p c = false.
Proof.
  unfold rstrip_by. intros H.
  apply (f_equal (@rev N)) in H. rewrite rev_involutive, rev_app_distr in H.
  simpl in H. pose proof (drop_while_head (rev s)) as Hh.
  rewrite H in Hh. exact Hh.
Qed.
End Spans.

Section Star.
Context {A : Type}.
Variable p : N -> bool.
Variable k : @Re.kont A.

(** When the rest of the pattern, once it has failed, also fails one
    character earlier, giving characters back never helps: [star] is
    its longest match followed by the rest of the pattern. *)
Hypothesis k_fails_earlier :
  forall n c s, k (S n) s = None -> k n (c :: s) = None.

Lemma star_fails (n : nat) s :
  k (n + length (take_while p s))%nat (drop_while p s) = None -> k n s = None.
Proof.
  revert n. induction s as [|c s IH]; intros n; simpl.
  - now rewrite Nat.add_0_r.
  - destruct (p c); simpl.
    + rewrite Nat.add_succ_r. intros H.
      apply k_fails_earlier, IH. exact H.
    + now rewrite Nat.add_0_r.
Qed.

Lemma star_greedy (n : nat) s :
  Re.star p k n s = k (n + length (take_while p s))%nat (drop_while p s).
Proof.
  revert n. induction s as [|c s IH]; intros n; simpl.
  - now rewrite Nat.add_0_r.
  - destruct (p c); simpl.
    + rewrite IH, Nat.add_succ_r. simpl.
      destruct (k (S (n + length (take_while p s))) (drop_while p s)) eqn:E;
        [reflexivity|].
      apply k_fails_earlier, star_fails. exact E.
    + now rewrite Nat.add_0_r.
Qed.
End Star.

Section Patterns.
Implicit Types (s raw : pystr) (c : N) (n : nat).

Lemma dollar_at_end {A} (k : @Re.kont A) n s :
  Re.dollar k n s = if at_end s then k n s else None.
Proof. destruct s as [|c [|d s]]; reflexivity. Qed.

Lemma at_end_drop_dot_cons c s :
  at_end (drop_while Re.dot s) = false ->
  at_end (drop_while Re.dot (c :: s)) = false.
Proof.
  intros H. simpl. destruct (Re.dot c) eqn:Ec; [assumption|].
  destruct s as [|d s]; [discriminate H|].
  simpl. destruct (c =? Chr.LF)%N; reflexivity.
Qed.

(** A greedy star of [.] followed by [$]: the match takes the characters
    up to the first line feed, and succeeds when nothing or one last line
    feed is left. *)
Lemma dot_star_dollar {A} (F : nat -> A) n s :
  Re.star Re.dot (fun n2 s2 => Re.dollar (fun _ _ => Some (F n2)) n2 s2) n s
  = if at_end (drop_while Re.dot s)
    then Some (F (n + length (take_while Re.dot s))%nat)
    else None.
Proof.
  rewrite star_greedy.
  - cbv beta. rewrite dollar_at_end. reflexivity.
  - intros m c t. rewrite !dollar_at_end.
    destruct (at_end t) eqn:Et; [discriminate|]. intros _.
    destruct t as [|d t]; [discriminate Et|].
    simpl. destruct (c =? Chr.LF)%N; reflexivity.
Qed.

(** The prefix pattern never gains from giving back characters of the
    prefix: group 1 is the text between the longest prefix of the prefix
    class and the first line feed after it, and there is a match exactly
    when that line feed, if any, ends the line. *)
Lemma TREE_PREFIX_PATTERN_match_eq raw :
  TREE_PREFIX_PATTERN_match raw
  = let s1 := drop_while prefix_class raw in
    if at_end (drop_while Re.dot s1) then Some (take_while Re.dot s1)
    else None.
Proof.
  unfold TREE_PREFIX_PATTERN_match. rewrite star_greedy.
  - rewrite dot_star_dollar. simpl.
    destruct (at_end _); [|reflexivity]. f_equal.
    rewrite drop_length_take_while.
    replace (_ + _ - _)%nat
      with (length (take_while Re.dot (drop_while prefix_class raw))) by lia.
    apply take_length_take_while.
  - intros m c t. rewrite !dot_star_dollar.
    destruct (at_end (drop_while Re.dot t)) eqn:Et; [discriminate|].
    intros _. now rewrite at_end_drop_dot_cons.
Qed.

Lemma TREE_PREFIX_PATTERN_match_no_LF raw :
  Chr.LF ∉ raw ->
  TREE_PREFIX_PATTERN_match raw
  = Some (take_while Re.dot (drop_while prefix_class raw)).
Proof.
  intros HLF. rewrite TREE_PREFIX_PATTERN_match_eq. simpl.
  rewrite (drop_while_all Re.dot); [reflexivity|].
  apply Forall_forall. intros c Hc. unfold Re.dot.
  destruct (N.eqb_spec c Chr.LF) as [->|]; [|reflexivity].
  exfalso. apply HLF.
  rewrite <- (take_drop_while prefix_class raw). set_solver.
Qed.

(** [\s+] matches where the input starts with white space, and takes the
    whole run. *)
Lemma ws_run_match_eq s :
  ws_run_match s
  = match s with
    | c :: s' => if isspace c then Some (S (length (take_while isspace s')))
                 else None
    | [] => None
    end.
Proof.
  destruct s as [|c s]; [reflexivity|].
  unfold ws_run_match, Re.plus, Re.one. destruct (isspace c); [|reflexivity].
  rewrite star_greedy; [reflexivity|]. discriminate.
Qed.
End Patterns.

(** ** Cleaned names *)

Section Names.
Implicit Types (s t : pystr) (c : N).

Lemma no_ws_pair_app_r s t : no_ws_pair (s ++ t) = true -> no_ws_pair t = true.
Proof.
  induction s as [|c s IH]; [trivial|].
  simpl. intros H. apply andb_prop in H. apply IH, H.
Qed.

Lemma no_ws_pair_app_l s t : no_ws_pair (s ++ t) = true -> no_ws_pair s = true.
Proof.
  induction s as [|c s IH]; [reflexivity|].
  simpl. intros H. apply andb_prop in H as [H1 H2].
  rewrite (IH H2), andb_true_r.
  destruct s as [|d s]; [reflexivity|exact H1].
Qed.

Lemma strip_infix s : exists a b, s = a ++ strip s ++ b.
Proof.
  unfold strip, lstrip_by.
  destruct (rstrip_by_split isspace (drop_while isspace s)) as (b & Hb & _).
  exists (take_while isspace s), b.
  rewrite <- Hb. symmetry. apply take_drop_while.
Qed.

Lemma strip_all_ws_plain s : all_ws_plain s = true -> all_ws_plain (strip s) = true.
Proof.
  destruct (strip_infix s) as (a & b & E). unfold all_ws_plain.
  rewrite E at 1. rewrite !forallb_app. intros H.
  apply andb_prop in H as [_ H]. apply andb_prop in H as [H _]. exact H.
Qed.

Lemma strip_no_ws_pair s : no_ws_pair s = true -> no_ws_pair (strip s) = true.
Proof.
  destruct (strip_infix s) as (a & b & E). rewrite E at 1. intros H.
  apply no_ws_pair_app_r in H. now apply no_ws_pair_app_l in H.
Qed.

Lemma strip_trimmed s : trimmed (strip s) = true.
Proof.
  unfold trimmed. apply andb_true_intro. split.
  - unfold strip, lstrip_by.
    pose proof (drop_while_head isspace s) as Hh.
    destruct (rstrip_by_split isspace (drop_while isspace s)) as (b & Hb & _).
    destruct (rstrip_by isspace (drop_while isspace s)) as [|c r]; [reflexivity|].
    rewrite Hb in Hh. simpl in *. now rewrite Hh.
  - unfold strip, rstrip_by. rewrite rev_involutive.
    pose proof (drop_while_head isspace (rev (lstrip_by isspace s))) as Hh.
    destruct (drop_while isspace _) as [|c r]; [reflexivity|].
    simpl. now rewrite Hh.
Qed.

Lemma strip_cons c s :
  isspace c = false -> strip (c :: s) = c :: rstrip_by isspace s.
Proof.
  intros Hc. unfold strip, lstrip_by. simpl. rewrite Hc.
  now apply rstrip_by_cons.
Qed.

Lemma sub_ws_cons c s :
  isspace c = false ->
  Re.sub ws_run_match (lit " ") 0 (c :: s)
  = c :: Re.sub ws_run_match (lit " ") 0 s.
Proof.
  intros Hc. cbn [Re.sub]. rewrite ws_run_match_eq, Hc. reflexivity.
Qed.

Lemma sub_ws_all_plain k s :
  all_ws_plain (Re.sub ws_run_match (lit " ") k s) = true.
Proof.
  revert k. induction s as [|c s IH]; intros k; [reflexivity|].
  cbn [Re.sub]. destruct k as [|k]; [|apply IH].
  rewrite ws_run_match_eq. destruct (isspace c) eqn:Ec.
  - simpl. apply IH.
  - simpl. rewrite Ec. simpl. apply IH.
Qed.

(** From the start of the scan the output has no white space pair; right
    after a match (the rest of the run is being skipped) it moreover does
    not start with white space. *)
Lemma sub_ws_no_pair s :
  no_ws_pair (Re.sub ws_run_match (lit " ") 0 s) = true /\
  (no_ws_pair (Re.sub ws_run_match (lit " ")
                 (length (take_while isspace s)) s) = true /\
   head_not_ws (Re.sub ws_run_match (lit " ")
                  (length (take_while isspace s)) s) = true).
Proof.
  induction s as [|c s (IH0 & IH1 & IH2)]; [repeat split|].
  assert (H0 : no_ws_pair (Re.sub ws_run_match (lit " ") 0 (c :: s)) = true).
  { cbn [Re.sub]. rewrite ws_run_match_eq. destruct (isspace c) eqn:Ec.
    - change (lit " " ++ ?x) with (Chr.SPACE :: x).
      cbn [no_ws_pair]. rewrite IH1, andb_true_r.
      destruct (Re.sub ws_run_match (lit " ")
                  (length (take_while isspace s)) s) as [|d r];
        [reflexivity|].
      simpl in IH2. apply negb_true_iff in IH2. rewrite IH2.
      now rewrite andb_false_r.
    - cbn [no_ws_pair]. rewrite IH0, andb_true_r.
      destruct (Re.sub ws_run_match (lit " ") 0 s); [reflexivity|].
      now rewrite Ec. }
  split; [exact H0|].
  cbn [take_while]. destruct (isspace c) eqn:Ec.
  - cbn [length Re.sub]. split; assumption.
  - cbn [length]. split; [exact H0|].
    rewrite sub_ws_cons by assumption. simpl. now rewrite Ec.
Qed.

(** Whatever text the pattern captured, the cleaned name is normalized. *)
Lemma cleaned_normalized s :
  normalized (strip (Re.sub ws_run_match (lit " ") 0 (strip s))) = true.
Proof.
  unfold normalized.
  rewrite strip_all_ws_plain by apply sub_ws_all_plain.
  rewrite strip_no_ws_pair by apply sub_ws_no_pair.
  now rewrite strip_trimmed.
Qed.

Lemma prefix_class_ws c : prefix_class c = false -> isspace c = false.
Proof.
  unfold prefix_class. intros H.
  apply orb_false_elim in H as [H _]. now apply orb_false_elim in H as [_ H].
Qed.

(** Cleaning keeps a first character that is outside the prefix class. *)
Lemma cleaned_head s :
  head_not_prefix s = true ->
  head_not_prefix (strip (Re.sub ws_run_match (lit " ") 0 (strip s))) = true.
Proof.
  destruct s as [|c s]; [reflexivity|]. simpl. intros Hc.
  apply negb_true_iff in Hc. pose proof (prefix_class_ws c Hc) as Hw.
  rewrite strip_cons, sub_ws_cons, strip_cons by assumption.
  simpl. now rewrite Hc.
Qed.

Lemma group1_head raw :
  head_not_prefix (take_while Re.dot (drop_while prefix_class raw)) = true.
Proof.
  pose proof (drop_while_head prefix_class raw) as Hh.
  destruct (drop_while prefix_class raw) as [|c r]; [reflexivity|].
  simpl. destruct (Re.dot c); [|reflexivity]. simpl. now rewrite Hh.
Qed.

Lemma all_ws_plain_no_NBSP s : all_ws_plain s = true -> Chr.NBSP ∉ s.
Proof.
  unfold all_ws_plain. rewrite forallb_forall. intros H Hin.
  apply list_elem_of_In, H in Hin. discriminate Hin.
Qed.
End Names.

(** ** The line parser *)

Section LineParser.
Implicit Types (n : Z) (raw : pystr) (it : item).

Lemma parse_tree_line_Some n raw it :
  parse_tree_line n raw = Some it ->
  exists g,
    TREE_PREFIX_PATTERN_match raw = Some g /\
    it = mk_item n raw (content_start 0 raw `div` 4)
           (strip (Re.sub ws_run_match (lit " ") 0 (strip g))).
Proof.
  unfold parse_tree_line.
  destruct (TREE_PREFIX_PATTERN_match raw) as [g|]; [|discriminate].
  intros [= <-]. now exists g.
Qed.

(** A line without a line feed always parses. *)
Lemma parse_tree_line_no_LF n raw :
  Chr.LF ∉ raw ->
  parse_tree_line n raw
  = Some (mk_item n raw (content_start 0 raw `div` 4)
            (strip (Re.sub ws_run_match (lit " ") 0
                      (strip (take_while Re.dot (drop_while prefix_class raw)))))).
Proof.
  intros HLF. unfold parse_tree_line.
  now rewrite TREE_PREFIX_PATTERN_match_no_LF.
Qed.

(** A line of characters of the prefix class parses to the empty name. *)
Lemma parse_tree_line_prefix_only n raw :
  Forall (fun c => prefix_class c = true) raw ->
  parse_tree_line n raw
  = Some (mk_item n raw (content_start 0 raw `div` 4) []).
Proof.
  intros Hall. unfold parse_tree_line.
  rewrite TREE_PREFIX_PATTERN_match_eq, drop_while_all by assumption.
  reflexivity.
Qed.

Lemma content_start_nonneg i raw : 0 <= i -> 0 <= content_start i raw.
Proof.
  revert i. induction raw as [|c raw IH]; intros i Hi; simpl; [lia|].
  destruct (negb _); [assumption|]. apply IH. lia.
Qed.

Lemma parse_tree_line_indent_nonneg n raw it :
  parse_tree_line n raw = Some it -> 0 <= indent_level it.
Proof.
  intros H. apply parse_tree_line_Some in H as (g & _ & ->). simpl.
  apply Z.div_pos; [|lia]. now apply content_start_nonneg.
Qed.

(** C7. The name of every item the line parser returns is normalized:
    its only white space characters are single plain spaces, never two in
    a row, and it neither starts nor ends with white space. The parser
    returns such an item for every line without a line feed. *)
Theorem parse_tree_line_name_normalized n raw :
  (forall it, parse_tree_line n raw = Some it ->
              normalized (item_name it) = true) /\
  (Chr.LF ∉ raw ->
   exists it, parse_tree_line n raw = Some it /\
              normalized (item_name it) = true).
Proof.
  split.
  - intros it H. apply parse_tree_line_Some in H as (g & _ & ->).
    apply cleaned_normalized.
  - intros HLF. rewrite parse_tree_line_no_LF by assumption.
    eexists. split; [reflexivity|]. apply cleaned_normalized.
Qed.

(** C6, as the code has it. The name of every item the line parser
    returns holds no non-breaking space and does not start with a
    character of the prefix pattern (│ ─ └ ├ or white space): only the
    leading run of these characters is removed, and box-drawing glyphs
    further on in the line stay in the name. *)
Theorem parse_tree_line_name_prefix_stripped n raw it :
  parse_tree_line n raw = Some it ->
  (Chr.NBSP ∉ item_name it) /\ head_not_prefix (item_name it) = true.
Proof.
  intros H. apply parse_tree_line_Some in H as (g & Hg & ->). simpl. split.
  - apply all_ws_plain_no_NBSP.
    pose proof (cleaned_normalized g) as Hn. unfold normalized in Hn.
    apply andb_prop in Hn as [Hn _]. now apply andb_prop in Hn as [Hn _].
  - apply cleaned_head.
    rewrite TREE_PREFIX_PATTERN_match_eq in Hg. simpl in Hg.
    destruct (at_end _); [|discriminate]. injection Hg as <-.
    apply group1_head.
Qed.
End LineParser.

(** C6 fails as stated: the line a│b has the name a│b, which holds the
    vertical bar of the decoration set. *)
Lemma parse_tree_line_keeps_inner_glyph :
  parse_tree_line 1 line_with_inner_glyph
  = Some (mk_item 1 line_with_inner_glyph 0 line_with_inner_glyph) /\
  char_in Chr.VERT TREE_CHARS = true /\
  char_in Chr.VERT (item_name (mk_item 1 line_with_inner_glyph 0
                                 line_with_inner_glyph)) = true.
Proof. repeat split. Qed.

Lemma parse_tree_line_name_normalized_witness :
  parse_tree_line 3 sample_line = Some (mk_item 3 sample_line 2 (lit "my file.txt"))
  /\ normalized (item_name (mk_item 3 sample_line 2 (lit "my file.txt"))) = true.
Proof.
  split; [reflexivity|].
  apply (proj1 (parse_tree_line_name_normalized 3 sample_line)).
  reflexivity.
Defined.

Lemma parse_tree_line_name_prefix_stripped_witness :
  parse_tree_line 3 sample_line = Some (mk_item 3 sample_line 2 (lit "my file.txt"))
  /\ (Chr.NBSP ∉ lit "my file.txt")
  /\ head_not_prefix (lit "my file.txt") = true.
Proof.
  split; [reflexivity|].
  apply (parse_tree_line_name_prefix_stripped 3 sample_line
           (mk_item 3 sample_line 2 (lit "my file.txt"))).
  reflexivity.
Defined.

(** ** The run *)

Lemma tally_sum_incr k d : tally_sum (incr k d) = tally_sum d + 1.
Proof.
  unfold tally_sum, incr.
  assert (Hcomm : forall z1 z2 y : Z, z1 + (z2 + y) = z2 + (z1 + y))
    by (intros; lia).
  destruct (d !! k) as [v|] eqn:E; simpl.
  - rewrite <- insert_delete_eq.
    rewrite map_fold_insert_L; [|intros; apply Hcomm|apply lookup_delete_eq].
    rewrite (map_fold_delete_L _ _ k v d); [lia|intros; apply Hcomm|exact E].
  - rewrite map_fold_insert_L; [lia|intros; apply Hcomm|exact E].
Qed.

Lemma parse_tree_line_num n m raw :
  match parse_tree_line n raw, parse_tree_line m raw with
  | Some a, Some b => item_name a = item_name b /\ indent_level a = indent_level b
  | None, None => True
  | _, _ => False
  end.
Proof.
  unfold parse_tree_line. destruct (TREE_PREFIX_PATTERN_match raw); simpl; auto.
Qed.

Section RunProperties.
Variable FILE_EXTENSIONS : list pystr.
Variable py_lower : pystr -> pystr.
Abbreviation is_file' := (is_file FILE_EXTENSIONS py_lower).
Abbreviation loop_body' := (loop_body FILE_EXTENSIONS py_lower).
Abbreviation process_lines' := (process_lines FILE_EXTENSIONS py_lower).
Abbreviation run_invariant' := (run_invariant FILE_EXTENSIONS py_lower).
Implicit Types (st : run_state) (raw : pystr) (lines : list pystr).

Lemma is_file_has_dot name :
  is_file' name = true -> char_in Chr.DOT (strip_size name) = true.
Proof. unfold is_file. now destruct (char_in _ _). Qed.

(** One iteration never raises and counts its line; it leaves everything
    else alone when the line yields no item, and otherwise sees one more
    item, which it counts as a file, with its extension, exactly when
    [is_file] says so. *)
Lemma loop_body_spec files_only st raw :
  exists st',
    loop_body' files_only st raw = Ok st' /\
    total_lines_processed st' = total_lines_processed st + 1 /\
    if yields_item raw then
      exists it,
        seen st' = seen st ++ [it] /\
        Z.of_nat (length (current_path st')) = indent_level it + 1 /\
        if is_file' (item_name it) then
          files_count st' = files_count st + 1 /\
          extensions st'
          = incr (py_lower (List.last (split Chr.DOT
                                         (strip_size (item_name it))) []))
                 (extensions st)
        else
          files_count st' = files_count st /\
          extensions st' = extensions st
    else
      seen st' = seen st /\ written st' = written st /\
      current_path st' = current_path st /\
      files_count st' = files_count st /\ extensions st' = extensions st.
Proof.
  unfold loop_body, yields_item.
  set (raw' := rstrip_chars [Chr.LF; Chr.CR] raw).
  set (n := total_lines_processed st + 1).
  destruct (strip raw') as [|c r]; [eexists; repeat split|].
  pose proof (parse_tree_line_num n 0 raw') as Hnum.
  destruct (parse_tree_line n raw') as [it|] eqn:Ep;
    destruct (parse_tree_line 0 raw') as [it0|]; try contradiction;
    [|eexists; repeat split].
  pose proof (parse_tree_line_indent_nonneg _ _ _ Ep) as Hlvl.
  destruct (update_path_nonneg (current_path st) it (indent_level it) Hlvl)
    as (cp1 & _ & Hlen & ->).
  cbn [bind item_name set_full_path].
  destruct (is_file' (item_name it)) eqn:Ef.
  - rewrite (is_file_has_dot _ Ef).
    eexists. split; [reflexivity|]. split; [reflexivity|].
    eexists. split; [reflexivity|]. cbn. rewrite Ef.
    split; [rewrite length_app; simpl; lia|]. split; reflexivity.
  - eexists. split; [reflexivity|]. split; [reflexivity|].
    eexists. split; [reflexivity|]. cbn. rewrite Ef.
    split; [rewrite length_app; simpl; lia|]. split; reflexivity.
Qed.

Lemma loop_body_invariant files_only st raw :
  run_invariant' st ->
  exists st', loop_body' files_only st raw = Ok st' /\ run_invariant' st'.
Proof.
  intros [Hsum Hcount].
  destruct (loop_body_spec files_only st raw) as (st' & -> & _ & H).
  exists st'. split; [reflexivity|]. unfold run_invariant.
  destruct (yields_item raw).
  - destruct H as (it & -> & _ & H). rewrite List.filter_app, length_app.
    cbn [List.filter]. destruct (is_file' (item_name it)) eqn:Ef.
    + destruct H as [-> ->]. rewrite (is_file_has_dot _ Ef), tally_sum_incr.
      simpl. lia.
    + destruct H as [-> ->]. simpl. lia.
  - destruct H as (-> & _ & _ & -> & ->). now split.
Qed.

Lemma process_lines_invariant files_only lines st :
  run_invariant' st ->
  exists st', process_lines' files_only st lines = Ok st' /\ run_invariant' st'.
Proof.
  revert st. induction lines as [|raw lines IH]; intros st Hinv; simpl.
  - now exists st.
  - destruct (loop_body_invariant files_only st raw Hinv) as (st1 & -> & H1).
    simpl. now apply IH.
Qed.

Lemma process_lines_counts files_only lines st :
  exists st',
    process_lines' files_only st lines = Ok st' /\
    total_lines_processed st'
    = total_lines_processed st + Z.of_nat (length lines) /\
    length (seen st')
    = (length (seen st) + length (List.filter yields_item lines))%nat.
Proof.
  revert st. induction lines as [|raw lines IH]; intros st; simpl.
  - exists st. repeat split; lia.
  - destruct (loop_body_spec files_only st raw) as (st1 & -> & Ht & H).
    simpl. destruct (IH st1) as (st' & -> & Ht' & Hs').
    exists st'. split; [reflexivity|]. split; [lia|].
    rewrite Hs'. destruct (yields_item raw).
    + destruct H as (it & -> & _). rewrite length_app. simpl. lia.
    + destruct H as (-> & _). lia.
Qed.
End RunProperties.

Lemma initial_state_invariant FILE_EXTENSIONS py_lower :
  run_invariant FILE_EXTENSIONS py_lower initial_state.
Proof. split; reflexivity. Qed.

(** A line of white space is blank for the loop. *)
Lemma strip_all_ws s : Forall (fun c => isspace c = true) s -> strip s = [].
Proof.
  intros H. unfold strip, lstrip_by. now rewrite drop_while_all.
Qed.

Lemma yields_item_all_ws raw :
  Forall (fun c => isspace c = true) raw -> yields_item raw = false.
Proof.
  intros H. unfold yields_item, rstrip_chars.
  destruct (rstrip_by_split (fun c => char_in c [Chr.LF; Chr.CR]) raw)
    as (t & E & _).
  rewrite E in H. apply Forall_app in H as [H _].
  now rewrite strip_all_ws.
Qed.

(** C8. After every processed line of any run (the first [k] lines of any
    input, for every [k]), the counts of the extension tally sum to
    [files_count], and [files_count] is the number of items seen so far
    that are files and whose stripped name contains a dot. *)
Theorem tally_sum_is_files_count FILE_EXTENSIONS py_lower files_only lines k :
  exists st,
    process_tree_file FILE_EXTENSIONS py_lower files_only (take k lines) = Ok st /\
    tally_sum (extensions st) = files_count st /\
    files_count st
    = Z.of_nat (length (List.filter
                          (fun it => is_file FILE_EXTENSIONS py_lower (item_name it)
                                     && char_in Chr.DOT (strip_size (item_name it)))
                          (seen st))).
Proof.
  destruct (process_lines_invariant FILE_EXTENSIONS py_lower files_only
              (take k lines) initial_state
              (initial_state_invariant FILE_EXTENSIONS py_lower))
    as (st & Hrun & Hsum & Hcount).
  exists st. repeat split; assumption.
Qed.

(** C9, as the code has it. [total_lines_processed] goes up by one for
    every line read, before the line is looked at, so at the end of a run
    it is the number of input lines; blank lines and lines the parser
    rejects are counted too. The number of items processed is the number of
    lines that yield an item, which is at most [total_lines_processed]. *)
Theorem total_lines_is_line_count FILE_EXTENSIONS py_lower files_only lines :
  exists st,
    process_tree_file FILE_EXTENSIONS py_lower files_only lines = Ok st /\
    total_lines_processed st = Z.of_nat (length lines) /\
    length (seen st) = length (List.filter yields_item lines) /\
    Z.of_nat (length (seen st)) <= total_lines_processed st.
Proof.
  destruct (process_lines_counts FILE_EXTENSIONS py_lower files_only lines
              initial_state) as (st & Hrun & Ht & Hs).
  exists st. simpl in Ht, Hs. repeat split; try assumption.
  rewrite Ht, Hs. pose proof (List.filter_length_le yields_item lines). lia.
Qed.

(** C9 fails as stated: on the two lines "" and "Root" the counter ends at
    2 although one item was processed. *)
Lemma total_lines_counts_blank_lines :
  exists st,
    process_tree_file [] (map ascii_lower) false [lit ""; lit "Root"] = Ok st /\
    total_lines_processed st = 2 /\
    length (seen st) = 1%nat /\
    total_lines_processed st <> Z.of_nat (length (seen st)).
Proof.
  eexists. split; [vm_compute; reflexivity|]. repeat split. discriminate.
Qed.

(** C2 fails as stated: the line made of a vertical bar and three spaces
    holds decoration characters only, yet the line parser returns an item
    for it, with the empty name, and the loop processes that item. *)
Lemma decoration_only_line_parsed :
  forallb (fun c => char_in c TREE_CHARS || isspace c) decoration_line = true /\
  parse_tree_line 1 decoration_line = Some (mk_item 1 decoration_line 0 []) /\
  exists st,
    process_tree_file [] (map ascii_lower) false [decoration_line] = Ok st /\
    seen st = [set_full_path (mk_item 1 decoration_line 0 []) []].
Proof.
  split; [reflexivity|]. split; [reflexivity|].
  eexists. split; [vm_compute; reflexivity|]. reflexivity.
Qed.

(** C2, as the code has it. The line parser returns an item, not absent,
    for every line without a line feed, decoration-only lines included;
    for a line made only of characters of the prefix pattern (│ ─ └ ├ and
    white space) the item has the empty name. Lines that are empty or all
    white space produce no item: [process_tree_file] skips them before it
    calls the parser. *)
Theorem decoration_only_lines FILE_EXTENSIONS py_lower n raw :
  (Chr.LF ∉ raw -> exists it, parse_tree_line n raw = Some it) /\
  (Forall (fun c => prefix_class c = true) raw ->
   parse_tree_line n raw
   = Some (mk_item n raw (content_start 0 raw `div` 4) [])) /\
  (Forall (fun c => isspace c = true) raw ->
   forall files_only st,
   exists st',
     loop_body FILE_EXTENSIONS py_lower files_only st raw = Ok st' /\
     seen st' = seen st /\ written st' = written st /\
     current_path st' = current_path st /\ files_count st' = files_count st).
Proof.
  split; [|split].
  - intros H. rewrite parse_tree_line_no_LF by assumption. now eexists.
  - apply parse_tree_line_prefix_only.
  - intros H files_only st.
    destruct (loop_body_spec FILE_EXTENSIONS py_lower files_only st raw)
      as (st' & Hrun & _ & Hst).
    rewrite yields_item_all_ws in Hst by assumption.
    exists st'. destruct Hst as (? & ? & ? & ? & _). now repeat split.
Qed.

Lemma decoration_only_lines_witness :
  (exists it, parse_tree_line 1 decoration_line = Some it) /\
  parse_tree_line 1 decoration_line = Some (mk_item 1 decoration_line 0 []) /\
  exists st',
    loop_body [] (map ascii_lower) false initial_state (lit "   ") = Ok st' /\
    seen st' = [] /\ written st' = [] /\ current_path st' = [] /\
    files_count st' = 0.
Proof.
  split; [|split].
  - apply (proj1 (decoration_only_lines [] (map ascii_lower) 1 decoration_line)).
    vm_compute. intros H. inversion H as [|? ? ? H1]; subst.
    repeat (inversion H1 as [|? ? ? H2]; subst; clear H1; rename H2 into H1).
  - apply (proj1 (proj2 (decoration_only_lines [] (map ascii_lower) 1
                           decoration_line))).
    repeat constructor.
  - apply (proj2 (proj2 (decoration_only_lines [] (map ascii_lower) 1
                           (lit "   ")))).
    repeat constructor.
Defined.

(** ** The classifier *)

Section Split.
Variable sep : N.
Implicit Types (s cur : pystr).

Lemma split_acc_nonempty cur s : split_acc sep cur s <> [].
Proof.
  revert cur. induction s as [|c s IH]; intros cur; simpl; [discriminate|].
  destruct (c =? sep)%N; [discriminate|apply IH].
Qed.

Lemma last_cons_nonempty {A} (x : A) (l : list A) d :
  l <> [] -> List.last (x :: l) d = List.last l d.
Proof. destruct l; [contradiction|reflexivity]. Qed.

(** [split(sep)[-1]] is the text after the last separator, or the whole
    string when there is none. *)
Lemma last_split_acc cur s :
  List.last (split_acc sep cur s) []
  = match after_last sep s with
    | Some r => r
    | None => cur ++ s
    end.
Proof.
  revert cur. induction s as [|c s IH]; intros cur; simpl.
  - now rewrite app_nil_r.
  - destruct (c =? sep)%N.
    + rewrite last_cons_nonempty by apply split_acc_nonempty.
      rewrite IH. now destruct (after_last sep s).
    + rewrite IH. destruct (after_last sep s); [reflexivity|].
      now rewrite <- app_assoc.
Qed.

Lemma after_last_char_in s :
  char_in sep s = match after_last sep s with Some _ => true | None => false end.
Proof.
  induction s as [|c s IH]; [reflexivity|].
  unfold char_in in *. simpl. rewrite IH, (N.eqb_sym sep c).
  destruct (after_last sep s); [apply orb_true_r|].
  rewrite orb_false_r. now destruct (c =? sep)%N.
Qed.
End Split.

Lemma is_file_is_file_spec FILE_EXTENSIONS py_lower name :
  is_file FILE_EXTENSIONS py_lower name
  = is_file_spec FILE_EXTENSIONS py_lower name.
Proof.
  unfold is_file, is_file_spec, split.
  rewrite after_last_char_in, last_split_acc.
  now destruct (after_last Chr.DOT (strip_size name)).
Qed.

(** C3. [is_file(name)] is true exactly when the name, once its trailing
    parenthesized group is stripped, contains a dot and the lowercase form
    of what follows its last dot is in the allow-list (where
    [FILE_EXTENSIONS] holds it with its leading dot); a dotted name whose
    final extension is not in the allow-list is not a file. *)
Theorem is_file_allow_list FILE_EXTENSIONS py_lower name :
  (is_file FILE_EXTENSIONS py_lower name = true <->
   char_in Chr.DOT (strip_size name) = true /\
   exists e, after_last Chr.DOT (strip_size name) = Some e /\
             lit "." ++ py_lower e ∈ FILE_EXTENSIONS) /\
  (forall e, after_last Chr.DOT (strip_size name) = Some e ->
             lit "." ++ py_lower e ∉ FILE_EXTENSIONS ->
             is_file FILE_EXTENSIONS py_lower name = false).
Proof.
  rewrite is_file_is_file_spec. unfold is_file_spec.
  rewrite after_last_char_in.
  destruct (after_last Chr.DOT (strip_size name)) as [e|].
  - split.
    + rewrite bool_decide_eq_true. split.
      * intros H. split; [reflexivity|]. now exists e.
      * intros (_ & e' & [= <-] & H). exact H.
    + intros e' [= <-] H. now apply bool_decide_eq_false.
  - split; [|discriminate]. split; [discriminate|].
    intros (H & _). discriminate H.
Qed.

Lemma is_file_allow_list_witness :
  after_last Chr.DOT (strip_size (lit "my.folder (2 items)")) = Some (lit "folder")
  /\ is_file [lit ".txt"; lit ".py"] (map ascii_lower)
       (lit "my.folder (2 items)") = false.
Proof.
  split; [reflexivity|].
  apply (proj2 (is_file_allow_list [lit ".txt"; lit ".py"] (map ascii_lower)
                  (lit "my.folder (2 items)")) (lit "folder")).
  - reflexivity.
  - vm_compute. intros H. apply list_elem_of_In in H. simpl in H.
    destruct H as [H|[H|[]]]; discriminate H.
Defined.

(** ** The scenario of four lines *)

Section Scenario.
Variable FILE_EXTENSIONS : list pystr.
Variable py_lower : pystr -> pystr.
Hypothesis txt_allowed : lit ".txt" ∈ FILE_EXTENSIONS.
Hypothesis py_allowed : lit ".py" ∈ FILE_EXTENSIONS.
Hypothesis lower_ascii : lower_on_ascii py_lower.

(** One iteration on a line that yields an item, given what the parser,
    the path stack and the classifier return for it. *)
Lemma loop_body_item files_only st raw it cp path :
  strip (rstrip_chars [Chr.LF; Chr.CR] raw) <> [] ->
  parse_tree_line (total_lines_processed st + 1)
    (rstrip_chars [Chr.LF; Chr.CR] raw) = Some it ->
  update_path (current_path st) it (indent_level it) = Ok (cp, path) ->
  loop_body FILE_EXTENSIONS py_lower files_only st raw
  = Ok (if is_file FILE_EXTENSIONS py_lower (item_name it) then
          {| current_path := cp;
             files_count := files_count st + 1;
             total_lines_processed := total_lines_processed st + 1;
             extensions :=
               incr (py_lower (List.last (split Chr.DOT
                                            (strip_size (item_name it))) []))
                    (extensions st);
             written := if files_only
                        then written st ++ [set_full_path it path]
                        else written st;
             seen := seen st ++ [set_full_path it path] |}
        else
          {| current_path := cp;
             files_count := files_count st;
             total_lines_processed := total_lines_processed st + 1;
             extensions := extensions st;
             written := if negb files_only
                        then written st ++ [set_full_path it path]
                        else written st;
             seen := seen st ++ [set_full_path it path] |}).
Proof.
  intros Hs Hp Hu. unfold loop_body. rewrite Hp, Hu.
  destruct (strip (rstrip_chars [Chr.LF; Chr.CR] raw)); [contradiction|].
  cbn [bind item_name set_full_path].
  destruct (is_file FILE_EXTENSIONS py_lower (item_name it)) eqn:Ef;
    [|reflexivity].
  now rewrite (is_file_has_dot _ _ _ Ef).
Qed.

Lemma is_file_dotted name e :
  after_last Chr.DOT (strip_size name) = Some e ->
  Forall (fun c => (c < 0x80)%N) e ->
  lit "." ++ map ascii_lower e ∈ FILE_EXTENSIONS ->
  is_file FILE_EXTENSIONS py_lower name = true.
Proof.
  intros He Hascii Hin. rewrite is_file_is_file_spec. unfold is_file_spec.
  rewrite He, lower_ascii by assumption. now apply bool_decide_eq_true.
Qed.

Lemma is_file_no_dot name :
  after_last Chr.DOT (strip_size name) = None ->
  is_file FILE_EXTENSIONS py_lower name = false.
Proof.
  intros He. rewrite is_file_is_file_spec. unfold is_file_spec. now rewrite He.
Qed.

Lemma ascii_lit_forall (s : pystr) :
  forallb (fun c => (c <? 0x80)%N) s = true -> Forall (fun c => (c < 0x80)%N) s.
Proof.
  rewrite forallb_forall, Forall_forall. intros H c Hc.
  apply N.ltb_lt, H. now apply list_elem_of_In.
Qed.

Lemma scenario_run files_only :
  exists st,
    process_tree_file FILE_EXTENSIONS py_lower files_only scenario_lines = Ok st /\
    map item_name (seen st)
    = [lit "Root"; lit "fileA.txt (10 KB)"; lit "SubDir"; lit "fileB.py"] /\
    map full_path (seen st)
    = [Some (lit "Root"); Some (lit "Root/fileA.txt (10 KB)");
       Some (lit "Root/SubDir"); Some (lit "Root/SubDir/fileB.py")] /\
    map (fun it => is_file FILE_EXTENSIONS py_lower (item_name it)) (seen st)
    = [false; true; false; true] /\
    extensions st = {[ lit "txt" := 1; lit "py" := 1 ]} /\
    files_count st = 2.
Proof.
  assert (HRoot : is_file FILE_EXTENSIONS py_lower (lit "Root") = false)
    by (apply is_file_no_dot; reflexivity).
  assert (HSub : is_file FILE_EXTENSIONS py_lower (lit "SubDir") = false)
    by (apply is_file_no_dot; reflexivity).
  assert (HA : is_file FILE_EXTENSIONS py_lower (lit "fileA.txt (10 KB)") = true).
  { apply (is_file_dotted _ (lit "txt")); [reflexivity| |exact txt_allowed].
    apply ascii_lit_forall. reflexivity. }
  assert (HB : is_file FILE_EXTENSIONS py_lower (lit "fileB.py") = true).
  { apply (is_file_dotted _ (lit "py")); [reflexivity| |exact py_allowed].
    apply ascii_lit_forall. reflexivity. }
  assert (LA : py_lower (lit "txt") = lit "txt").
  { rewrite lower_ascii; [reflexivity|]. apply ascii_lit_forall. reflexivity. }
  assert (LB : py_lower (lit "py") = lit "py").
  { rewrite lower_ascii; [reflexivity|]. apply ascii_lit_forall. reflexivity. }
  unfold process_tree_file, scenario_lines. cbn [process_lines].
  rewrite (loop_body_item files_only _ (lit "Root")
             (mk_item 1 (lit "Root") 0 (lit "Root"))
             [lit "Root"] (lit "Root"));
    [|discriminate|reflexivity|reflexivity].
  cbn [item_name mk_item]. rewrite HRoot. cbn [bind].
  rewrite (loop_body_item files_only _ (lit "    fileA.txt (10 KB)")
             (mk_item 2 (lit "    fileA.txt (10 KB)") 1 (lit "fileA.txt (10 KB)"))
             [lit "Root"; lit "fileA.txt (10 KB)"]
             (lit "Root/fileA.txt (10 KB)"));
    [|discriminate|reflexivity|reflexivity].
  cbn [item_name mk_item]. rewrite HA. cbn [bind].
  rewrite (loop_body_item files_only _ (lit "    SubDir")
             (mk_item 3 (lit "    SubDir") 1 (lit "SubDir"))
             [lit "Root"; lit "SubDir"] (lit "Root/SubDir"));
    [|discriminate|reflexivity|reflexivity].
  cbn [item_name mk_item]. rewrite HSub. cbn [bind].
  rewrite (loop_body_item files_only _ (lit "        fileB.py")
             (mk_item 4 (lit "        fileB.py") 2 (lit "fileB.py"))
             [lit "Root"; lit "SubDir"; lit "fileB.py"]
             (lit "Root/SubDir/fileB.py"));
    [|discriminate|reflexivity|reflexivity].
  cbn [item_name mk_item]. rewrite HB. cbn [bind].
  eexists. split; [reflexivity|].
  cbn [seen extensions files_count initial_state app map item_name full_path
       set_full_path mk_item].
  rewrite HRoot, HA, HSub, HB.
  change (List.last (split Chr.DOT (strip_size (lit "fileA.txt (10 KB)"))) [])
    with (lit "txt").
  change (List.last (split Chr.DOT (strip_size (lit "fileB.py"))) [])
    with (lit "py").
  rewrite LA, LB.
  repeat split.
Qed.
End Scenario.

(** C4. With [.txt] and [.py] in the allow-list, the four lines Root,
    fileA.txt (10 KB) and SubDir at four spaces, and fileB.py at eight
    spaces are processed without error; the items have the full paths
    Root, Root/fileA.txt (10 KB), Root/SubDir and Root/SubDir/fileB.py; the
    two dotted names are files and Root and SubDir are not; the tally ends
    as txt: 1, py: 1 and [files_count] as 2. *)
Theorem scenario_four_lines FILE_EXTENSIONS py_lower files_only :
  lit ".txt" ∈ FILE_EXTENSIONS ->
  lit ".py" ∈ FILE_EXTENSIONS ->
  lower_on_ascii py_lower ->
  exists st,
    process_tree_file FILE_EXTENSIONS py_lower files_only scenario_lines = Ok st /\
    map item_name (seen st)
    = [lit "Root"; lit "fileA.txt (10 KB)"; lit "SubDir"; lit "fileB.py"] /\
    map full_path (seen st)
    = [Some (lit "Root"); Some (lit "Root/fileA.txt (10 KB)");
       Some (lit "Root/SubDir"); Some (lit "Root/SubDir/fileB.py")] /\
    map (fun it => is_file FILE_EXTENSIONS py_lower (item_name it)) (seen st)
    = [false; true; false; true] /\
    extensions st = {[ lit "txt" := 1; lit "py" := 1 ]} /\
    files_count st = 2.
Proof.
  intros Htxt Hpy Hlower. now apply scenario_run.
Qed.

Lemma ascii_lower_on_ascii : lower_on_ascii (map ascii_lower).
Proof. intros s _. reflexivity. Qed.

Lemma scenario_four_lines_witness :
  exists st,
    process_tree_file [lit ".txt"; lit ".py"] (map ascii_lower) false
      scenario_lines = Ok st /\
    map item_name (seen st)
    = [lit "Root"; lit "fileA.txt (10 KB)"; lit "SubDir"; lit "fileB.py"] /\
    map full_path (seen st)
    = [Some (lit "Root"); Some (lit "Root/fileA.txt (10 KB)");
       Some (lit "Root/SubDir"); Some (lit "Root/SubDir/fileB.py")] /\
    map (fun it => is_file [lit ".txt"; lit ".py"] (map ascii_lower)
                     (item_name it)) (seen st)
    = [false; true; false; true] /\
    extensions st = {[ lit "txt" := 1; lit "py" := 1 ]} /\
    files_count st = 2.
Proof.
  apply (scenario_four_lines [lit ".txt"; lit ".py"] (map ascii_lower) false).
  - apply list_elem_of_here.
  - apply list_elem_of_further, list_elem_of_here.
  - exact ascii_lower_on_ascii.
Defined.

(** * Further properties *)

(** ** More on the line parser *)

Section ParserMore.
Implicit Types (n m : Z) (raw t s : pystr) (it : item).

Lemma drop_while_app p s t :
  drop_while p (s ++ t)
  = match drop_while p s with
    | [] => drop_while p t
    | c :: r => (c :: r) ++ t
    end.
Proof.
  induction s as [|c s IH]; simpl; [now destruct (drop_while p t)|].
  destruct (p c); [exact IH|reflexivity].
Qed.

Lemma take_while_no_LF s : Chr.LF ∉ s -> take_while Re.dot s = s.
Proof.
  induction s as [|c s IH]; intros H; [reflexivity|]. simpl.
  unfold Re.dot at 1. destruct (N.eqb_spec c Chr.LF) as [->|Hc].
  - exfalso. apply H. left.
  - simpl. f_equal. apply IH. intros Hin. apply H. now right.
Qed.

Lemma at_end_drop_dot_false s :
  at_end (drop_while Re.dot s) = false <->
  exists a c b, s = a ++ Chr.LF :: c :: b /\ Chr.LF ∉ a.
Proof.
  induction s as [|d s IH]; simpl.
  - split; [discriminate|]. intros (a & c & b & E & _). now destruct a.
  - unfold Re.dot at 1 2. destruct (N.eqb_spec d Chr.LF) as [->|Hd]; simpl.
    + destruct s as [|c b]; simpl.
      * split; [discriminate|]. intros (a & c & b & E & Ha).
        destruct a as [|x [|y a]]; discriminate E.
      * split; [|reflexivity]. intros _. exists [], c, b. split; [reflexivity|].
        apply not_elem_of_nil.
    + rewrite IH. split.
      * intros (a & c & b & -> & Ha). exists (d :: a), c, b.
        split; [reflexivity|]. intros Hin. apply elem_of_cons in Hin as [E|Hin];
          [now symmetry in E|contradiction].
      * intros (a & c & b & E & Ha). destruct a as [|x a].
        -- injection E as -> _. contradiction.
        -- injection E as -> ->. exists a, c, b. split; [reflexivity|].
           intros Hin. apply Ha. now right.
Qed.

(** X1. The line parser returns absent exactly when, after the leading
    run of characters of the prefix pattern, a line feed occurs that is
    not the last character of the line. *)
Theorem parse_tree_line_absent_iff n raw :
  parse_tree_line n raw = None <->
  exists a c b,
    drop_while prefix_class raw = a ++ Chr.LF :: c :: b /\ Chr.LF ∉ a.
Proof.
  rewrite <- at_end_drop_dot_false. unfold parse_tree_line.
  rewrite TREE_PREFIX_PATTERN_match_eq. simpl.
  destruct (at_end _); split; (discriminate || reflexivity).
Qed.

Lemma content_start_eq i raw :
  content_start i raw
  = if has_content raw
    then i + Z.of_nat (length (take_while (fun c => char_in c TREE_CHARS) raw))
    else 0.
Proof.
  revert i. induction raw as [|c raw IH]; intros i; [reflexivity|].
  unfold has_content in *. cbn [content_start existsb take_while].
  destruct (char_in c TREE_CHARS); cbn [negb orb length].
  - rewrite IH. destruct (existsb _ raw); lia.
  - lia.
Qed.

(** X2. The content start index is the number of leading characters of
    the decoration list when some character of the line is outside that
    list, and 0 when none is: a line of decoration characters only gets
    indentation level 0, whatever its length. *)
Theorem indent_level_eq n raw it :
  parse_tree_line n raw = Some it ->
  indent_level it
  = if has_content raw
    then Z.of_nat (length (take_while (fun c => char_in c TREE_CHARS) raw)) `div` 4
    else 0.
Proof.
  intros H. apply parse_tree_line_Some in H as (g & _ & ->). simpl.
  rewrite content_start_eq. now destruct (has_content raw).
Qed.

Lemma has_content_app raw t : has_content raw = true -> has_content (raw ++ t) = true.
Proof. unfold has_content. rewrite existsb_app. now intros ->. Qed.

Lemma take_while_app_stop p raw t :
  existsb (fun c => negb (p c)) raw = true ->
  take_while p (raw ++ t) = take_while p raw.
Proof.
  induction raw as [|c raw IH]; [discriminate|]. simpl.
  destruct (p c); simpl; [|reflexivity]. intros H. f_equal. now apply IH.
Qed.

Lemma strip_app_ws s t :
  Forall (fun c => isspace c = true) t -> strip (s ++ t) = strip s.
Proof.
  intros Ht. unfold strip, lstrip_by. rewrite drop_while_app.
  destruct (drop_while isspace s) as [|c r] eqn:E.
  - now rewrite drop_while_all.
  - unfold rstrip_by. rewrite rev_app_distr, drop_while_app.
    rewrite drop_while_all by now apply Forall_rev. reflexivity.
Qed.

Lemma Forall_ws_prefix t :
  Forall (fun c => isspace c = true) t ->
  Forall (fun c => prefix_class c = true) t.
Proof.
  intros H. apply (Forall_impl _ _ _ H). intros c Hc.
  unfold prefix_class. rewrite Hc. now rewrite orb_true_r.
Qed.

(** X3. White space added at the end of a line (no line feed involved)
    does not change the name the parser returns, and does not change the
    indentation level either when the line has a character outside the
    decoration list. *)
Theorem parse_tree_line_trailing_ws n raw t :
  Forall (fun c => isspace c = true) t ->
  Chr.LF ∉ raw ++ t ->
  exists it it',
    parse_tree_line n raw = Some it /\
    parse_tree_line n (raw ++ t) = Some it' /\
    item_name it' = item_name it /\
    (if has_content raw then indent_level it' = indent_level it else True).
Proof.
  intros Ht HLF.
  assert (HLFraw : Chr.LF ∉ raw) by (intros H; apply HLF; set_solver).
  rewrite !parse_tree_line_no_LF by assumption.
  eexists _, _. split; [reflexivity|]. split; [reflexivity|]. simpl. split.
  - rewrite !take_while_no_LF.
    + rewrite drop_while_app.
      destruct (drop_while prefix_class raw) as [|c r] eqn:E.
      * rewrite drop_while_all by now apply Forall_ws_prefix. reflexivity.
      * now rewrite strip_app_ws.
    + intros Hin. apply HLFraw.
      rewrite <- (take_drop_while prefix_class raw). set_solver.
    + intros Hin. apply HLF.
      rewrite <- (take_drop_while prefix_class (raw ++ t)). set_solver.
  - destruct (has_content raw) eqn:Hc; [|exact I].
    rewrite !content_start_eq, Hc, has_content_app by assumption.
    unfold has_content in Hc. now rewrite take_while_app_stop.
Qed.

Lemma strip_trimmed_id s : trimmed s = true -> strip s = s.
Proof.
  unfold trimmed. intros H. apply andb_prop in H as [Hh Hl].
  unfold strip, lstrip_by, rstrip_by.
  assert (E : drop_while isspace s = s).
  { destruct s as [|c s]; [reflexivity|]. simpl in *.
    apply negb_true_iff in Hh. now rewrite Hh. }
  rewrite E.
  assert (E' : drop_while isspace (rev s) = rev s).
  { destruct (rev s) as [|c r]; [reflexivity|]. simpl in *.
    apply negb_true_iff in Hl. now rewrite Hl. }
  rewrite E'. apply rev_involutive.
Qed.

Lemma sub_ws_normalized_id s :
  all_ws_plain s = true -> no_ws_pair s = true ->
  Re.sub ws_run_match (lit " ") 0 s = s.
Proof.
  induction s as [|c s IH]; [reflexivity|].
  unfold all_ws_plain in *. cbn [forallb no_ws_pair Re.sub].
  intros Ha Hp. apply andb_prop in Ha as [Hc Ha]. apply andb_prop in Hp as [Hcp Hp].
  rewrite ws_run_match_eq. destruct (isspace c) eqn:Ec.
  - simpl in Hc. apply N.eqb_eq in Hc as ->.
    assert (Et : take_while isspace s = []).
    { destruct s as [|d s]; [reflexivity|]. simpl in *.
      apply negb_true_iff in Hcp. now rewrite Hcp. }
    rewrite Et. simpl. f_equal. now apply IH.
  - f_equal. now apply IH.
Qed.

Lemma all_ws_plain_no_LF s : all_ws_plain s = true -> Chr.LF ∉ s.
Proof.
  unfold all_ws_plain. rewrite forallb_forall. intros H Hin.
  apply list_elem_of_In, H in Hin. discriminate Hin.
Qed.

Lemma drop_while_head_id p s :
  match s with [] => true | c :: _ => negb (p c) end = true -> drop_while p s = s.
Proof.
  destruct s as [|c s]; [reflexivity|]. simpl. intros H.
  apply negb_true_iff in H. now rewrite H.
Qed.

(** X4. Cleaning is idempotent: a name the parser returned, given to the
    parser as a line, comes back as the same name. *)
Theorem parse_tree_line_name_fixpoint n m raw it :
  parse_tree_line n raw = Some it ->
  exists it',
    parse_tree_line m (item_name it) = Some it' /\
    item_name it' = item_name it.
Proof.
  intros H. apply parse_tree_line_Some in H as (g & Hg & ->).
  cbn [item_name mk_item].
  set (name := strip (Re.sub ws_run_match (lit " ") 0 (strip g))).
  pose proof (cleaned_normalized g) as Hn. fold name in Hn.
  unfold normalized in Hn. apply andb_prop in Hn as [Hn Ht].
  apply andb_prop in Hn as [Ha Hp].
  assert (Hh : head_not_prefix name = true).
  { apply cleaned_head. rewrite TREE_PREFIX_PATTERN_match_eq in Hg.
    simpl in Hg. destruct (at_end _); [|discriminate]. injection Hg as <-.
    apply group1_head. }
  pose proof (all_ws_plain_no_LF _ Ha) as HLF.
  rewrite parse_tree_line_no_LF by assumption.
  eexists. split; [reflexivity|]. cbn [item_name mk_item].
  rewrite (drop_while_head_id prefix_class name) by exact Hh.
  rewrite take_while_no_LF by assumption.
  rewrite (strip_trimmed_id name) by exact Ht.
  rewrite (sub_ws_normalized_id name) by assumption.
  apply strip_trimmed_id. exact Ht.
Qed.
End ParserMore.

Lemma parse_tree_line_absent_iff_witness :
  parse_tree_line 1 (lit "a" ++ [Chr.LF] ++ lit "b") = None.
Proof.
  apply (proj2 (parse_tree_line_absent_iff 1 (lit "a" ++ [Chr.LF] ++ lit "b"))).
  exists (lit "a"), 0x62%N, []. split; [reflexivity|].
  intros H. apply list_elem_of_In in H. simpl in H.
  destruct H as [H|[]]; discriminate H.
Defined.

Lemma indent_level_eq_witness :
  parse_tree_line 1 decoration_line = Some (mk_item 1 decoration_line 0 []) /\
  indent_level (mk_item 1 decoration_line 0 []) = 0.
Proof.
  split; [reflexivity|].
  apply (indent_level_eq 1 decoration_line (mk_item 1 decoration_line 0 [])).
  reflexivity.
Defined.

Lemma parse_tree_line_trailing_ws_witness :
  exists it it',
    parse_tree_line 1 (lit "    a.txt") = Some it /\
    parse_tree_line 1 (lit "    a.txt" ++ [Chr.SPACE; Chr.CR]) = Some it' /\
    item_name it' = item_name it /\
    (if has_content (lit "    a.txt") then indent_level it' = indent_level it
     else True).
Proof.
  apply (parse_tree_line_trailing_ws 1 (lit "    a.txt") [Chr.SPACE; Chr.CR]).
  - repeat constructor.
  - vm_compute. intros H. apply list_elem_of_In in H. simpl in H.
    repeat (destruct H as [H|H]; [discriminate H|]). exact H.
Defined.

Lemma parse_tree_line_name_fixpoint_witness :
  parse_tree_line 3 sample_line = Some (mk_item 3 sample_line 2 (lit "my file.txt"))
  /\ exists it',
       parse_tree_line 9 (lit "my file.txt") = Some it' /\
       item_name it' = lit "my file.txt".
Proof.
  split; [reflexivity|].
  apply (parse_tree_line_name_fixpoint 3 9 sample_line
           (mk_item 3 sample_line 2 (lit "my file.txt"))).
  reflexivity.
Defined.

(** ** More on the path stack *)

Section PathMore.
Implicit Types (cp : list pystr) (L : Z) (it : item) (l : list pystr).

Lemma adjust_path_eq cp L :
  0 <= L ->
  adjust_path cp L
  = Ok (take (Z.to_nat L) cp ++ replicate (Z.to_nat L - length cp) []).
Proof.
  intros HL. rewrite adjust_path_nonneg by assumption. do 3 f_equal.
  rewrite length_take. lia.
Qed.

(** X5. With a negative indentation level [update_path] raises
    IndexError: its first loop pops the stack until it is empty and then
    pops once more. *)
Theorem update_path_negative_level cp it L :
  L < 0 -> update_path cp it L = Raise IndexError.
Proof.
  intros HL. rewrite update_path_unfold, adjust_path_negative by assumption.
  reflexivity.
Qed.

Lemma update_path_stack_eq cp it L :
  0 <= L ->
  update_path cp it L
  = Ok (take (Z.to_nat L) cp ++ replicate (Z.to_nat L - length cp) []
          ++ [item_name it],
        join (lit "/")
          (take (Z.to_nat L) cp ++ replicate (Z.to_nat L - length cp) []
             ++ [item_name it])).
Proof.
  intros HL. rewrite update_path_unfold, adjust_path_eq by assumption.
  simpl. now rewrite <- !app_assoc.
Qed.

(** X6. With a level [L >= 0] the stack after [update_path] is the first
    [L] entries of the old stack, then one empty string for each level the
    old stack was short of [L], then the name of the item; the returned
    path is that stack joined with slashes. The ancestors below level [L]
    are kept as they were. *)
Theorem update_path_result cp it L :
  0 <= L ->
  update_path cp it L
  = Ok (take (Z.to_nat L) cp ++ replicate (Z.to_nat L - length cp) []
          ++ [item_name it],
        join (lit "/")
          (take (Z.to_nat L) cp ++ replicate (Z.to_nat L - length cp) []
             ++ [item_name it])).
Proof.
  intros HL. rewrite update_path_unfold, adjust_path_eq by assumption.
  simpl. now rewrite <- !app_assoc.
Qed.

Lemma update_path_inv cp it L cp' path :
  update_path cp it L = Ok (cp', path) ->
  exists parent,
    0 <= L /\ Z.of_nat (length parent) = L /\
    cp' = parent ++ [item_name it] /\ path = join (lit "/") cp'.
Proof.
  destruct (Z_lt_le_dec L 0) as [Hneg|Hpos].
  - rewrite update_path_unfold, adjust_path_negative by assumption. discriminate.
  - destruct (update_path_nonneg cp it L Hpos) as (cp1 & _ & Hlen & ->).
    intros [= <- <-]. now exists cp1.
Qed.

(** X7. Siblings: when an item at level [L] follows an item at the same
    level, the second call replaces the last entry of the stack by the new
    name and keeps the parents, so both paths share the parents' part. *)
Theorem update_path_sibling cp it1 it2 L cp1 path1 :
  update_path cp it1 L = Ok (cp1, path1) ->
  exists parent,
    cp1 = parent ++ [item_name it1] /\
    update_path cp1 it2 L
    = Ok (parent ++ [item_name it2],
          join (lit "/") (parent ++ [item_name it2])).
Proof.
  intros H. apply update_path_inv in H as (parent & HL & Hlen & -> & _).
  exists parent. split; [reflexivity|].
  rewrite update_path_stack_eq by assumption.
  rewrite take_app_length' by lia.
  rewrite length_app. simpl length.
  replace (Z.to_nat L - (length parent + 1))%nat with 0%nat by lia.
  reflexivity.
Qed.

Lemma join_snoc sep l x :
  l <> [] -> join sep (l ++ [x]) = join sep l ++ sep ++ x.
Proof.
  induction l as [|y l IH]; [contradiction|]. intros _.
  destruct l as [|z l]; [reflexivity|].
  change (join sep ((y :: z :: l) ++ [x]))
    with (y ++ sep ++ join sep ((z :: l) ++ [x])).
  rewrite IH by discriminate.
  change (join sep (y :: z :: l)) with (y ++ sep ++ join sep (z :: l)).
  now rewrite <- !app_assoc.
Qed.

(** X8. Children: when an item one level deeper follows an item, the
    second call pushes its name on the stack, and its path is the path of
    the first item, a slash, and its name. *)
Theorem update_path_child cp it1 it2 L cp1 path1 :
  update_path cp it1 L = Ok (cp1, path1) ->
  update_path cp1 it2 (L + 1)
  = Ok (cp1 ++ [item_name it2], path1 ++ lit "/" ++ item_name it2).
Proof.
  intros H. apply update_path_inv in H as (parent & HL & Hlen & -> & ->).
  rewrite update_path_stack_eq by lia.
  assert (E : Z.to_nat (L + 1) = length (parent ++ [item_name it1])).
  { rewrite length_app. simpl. lia. }
  rewrite E, take_ge, Nat.sub_diag by lia.
  change (replicate 0 [] ++ [item_name it2]) with [item_name it2].
  rewrite (join_snoc _ (parent ++ [item_name it1]));
    [reflexivity|destruct parent; discriminate].
Qed.

Lemma split_acc_app sep cur x s :
  sep ∉ x -> split_acc sep cur (x ++ s) = split_acc sep (cur ++ x) s.
Proof.
  revert cur. induction x as [|c x IH]; intros cur Hx; simpl.
  - now rewrite app_nil_r.
  - destruct (N.eqb_spec c sep) as [->|Hc].
    + exfalso. apply Hx. left.
    + rewrite IH, <- app_assoc; [reflexivity|].
      intros Hin. apply Hx. now right.
Qed.

Lemma split_join sep l :
  l <> [] -> Forall (fun x => sep ∉ x) l -> split sep (join [sep] l) = l.
Proof.
  unfold split. induction l as [|x l IH]; [contradiction|].
  intros _ Hall. apply Forall_cons in Hall as [Hx Hl].
  destruct l as [|y l].
  - simpl. rewrite <- (app_nil_r x) at 1. now rewrite split_acc_app.
  - change (join [sep] (x :: y :: l)) with (x ++ [sep] ++ join [sep] (y :: l)).
    rewrite split_acc_app by assumption. simpl. rewrite N.eqb_refl.
    f_equal. now apply IH.
Qed.

(** X9. When no entry of the stack contains a slash, splitting the
    returned path on slashes gives back the stack: one segment for each
    level from 0 to [L]. *)
Theorem update_path_split cp it L cp' path :
  update_path cp it L = Ok (cp', path) ->
  Forall (fun seg => SLASH ∉ seg) cp' ->
  split SLASH path = cp' /\ Z.of_nat (length (split SLASH path)) = L + 1.
Proof.
  intros H Hall. apply update_path_inv in H as (parent & HL & Hlen & -> & ->).
  change (lit "/") with [SLASH].
  rewrite split_join; [|destruct parent; discriminate|assumption].
  split; [reflexivity|]. rewrite length_app. simpl. lia.
Qed.
End PathMore.

Lemma update_path_negative_level_witness :
  update_path [lit "a"] (mk_item 1 [] (-1) (lit "x")) (-1) = Raise IndexError.
Proof.
  apply (update_path_negative_level [lit "a"] (mk_item 1 [] (-1) (lit "x")) (-1)).
  lia.
Defined.

Lemma update_path_result_witness :
  update_path [lit "a"; lit "b"; lit "c"] (mk_item 1 [] 1 (lit "x")) 1
  = Ok ([lit "a"; lit "x"], lit "a/x").
Proof.
  apply (update_path_result [lit "a"; lit "b"; lit "c"]
           (mk_item 1 [] 1 (lit "x")) 1).
  lia.
Defined.

Lemma update_path_sibling_witness :
  exists parent,
    [lit "a"; lit "x"] = parent ++ [lit "x"] /\
    update_path [lit "a"; lit "x"] (mk_item 2 [] 1 (lit "y")) 1
    = Ok (parent ++ [lit "y"], join (lit "/") (parent ++ [lit "y"])).
Proof.
  apply (update_path_sibling [lit "a"; lit "b"; lit "c"]
           (mk_item 1 [] 1 (lit "x")) (mk_item 2 [] 1 (lit "y")) 1
           [lit "a"; lit "x"] (lit "a/x")).
  reflexivity.
Defined.

Lemma update_path_child_witness :
  update_path [lit "a"; lit "x"] (mk_item 2 [] 2 (lit "y")) (1 + 1)
  = Ok ([lit "a"; lit "x"] ++ [lit "y"], lit "a/x" ++ lit "/" ++ lit "y").
Proof.
  apply (update_path_child [lit "a"; lit "b"; lit "c"]
           (mk_item 1 [] 1 (lit "x")) (mk_item 2 [] 2 (lit "y")) 1
           [lit "a"; lit "x"] (lit "a/x")).
  reflexivity.
Defined.

Lemma update_path_split_witness :
  split SLASH (lit "a/x") = [lit "a"; lit "x"] /\
  Z.of_nat (length (split SLASH (lit "a/x"))) = 1 + 1.
Proof.
  apply (update_path_split [lit "a"; lit "b"; lit "c"]
           (mk_item 1 [] 1 (lit "x")) 1 [lit "a"; lit "x"] (lit "a/x")).
  - reflexivity.
  - repeat constructor; vm_compute; intros H; apply list_elem_of_In in H;
      simpl in H; intuition discriminate.
Defined.

(** ** More on the run *)

Section RunMore.
Variable FILE_EXTENSIONS : list pystr.
Variable py_lower : pystr -> pystr.
Variable files_only : bool.
Implicit Types (st : run_state) (raw : pystr) (lines : list pystr).

(** The two ways an iteration can go: the line yields no item and only
    the line counter moves, or the parser and [update_path] return and the
    state moves as [loop_body_item] says. *)
Lemma loop_body_cases st raw :
  (yields_item raw = false /\
   loop_body FILE_EXTENSIONS py_lower files_only st raw
   = Ok {| current_path := current_path st; files_count := files_count st;
           total_lines_processed := total_lines_processed st + 1;
           extensions := extensions st; written := written st;
           seen := seen st |}) \/
  (yields_item raw = true /\
   exists it cp path,
     parse_tree_line (total_lines_processed st + 1)
       (rstrip_chars [Chr.LF; Chr.CR] raw) = Some it /\
     update_path (current_path st) it (indent_level it) = Ok (cp, path) /\
     forall st',
       loop_body FILE_EXTENSIONS py_lower files_only st raw = Ok st' ->
       total_lines_processed st' = total_lines_processed st + 1 /\
       current_path st' = cp /\
       seen st' = seen st ++ [set_full_path it path] /\
       written st'
       = (if is_written FILE_EXTENSIONS py_lower files_only it
          then written st ++ [set_full_path it path] else written st) /\
       files_count st'
       = (if is_file FILE_EXTENSIONS py_lower (item_name it)
          then files_count st + 1 else files_count st) /\
       extensions st'
       = (if is_file FILE_EXTENSIONS py_lower (item_name it)
          then incr (py_lower (List.last (split Chr.DOT
                                            (strip_size (item_name it))) []))
                    (extensions st)
          else extensions st)).
Proof.
  unfold yields_item.
  set (raw' := rstrip_chars [Chr.LF; Chr.CR] raw).
  destruct (strip raw') as [|c r] eqn:Es.
  { left. split; [reflexivity|]. unfold loop_body. fold raw'. now rewrite Es. }
  pose proof (parse_tree_line_num (total_lines_processed st + 1) 0 raw') as Hnum.
  destruct (parse_tree_line (total_lines_processed st + 1) raw') as [it|] eqn:Ep;
    destruct (parse_tree_line 0 raw') as [it0|]; try contradiction.
  - right. split; [reflexivity|].
    pose proof (parse_tree_line_indent_nonneg _ _ _ Ep) as Hlvl.
    destruct (update_path_nonneg (current_path st) it (indent_level it) Hlvl)
      as (cp1 & _ & _ & Hup).
    eexists it, _, _. split; [reflexivity|]. split; [exact Hup|].
    intros st'. erewrite loop_body_item; [|fold raw'; now rewrite Es|exact Ep|exact Hup].
    unfold is_written. intros [= <-].
    destruct (is_file FILE_EXTENSIONS py_lower (item_name it)), files_only;
      repeat split.
  - left. split; [reflexivity|]. unfold loop_body. fold raw'.
    now rewrite Es, Ep.
Qed.

(** Induction over the lines of a run: the loop never raises, and a
    property of the state that every iteration keeps holds at the end. *)
Lemma process_lines_preserves (P : run_state -> Prop) :
  (forall st raw st',
     P st -> loop_body FILE_EXTENSIONS py_lower files_only st raw = Ok st' ->
     P st') ->
  forall lines st,
    P st ->
    exists st',
      process_lines FILE_EXTENSIONS py_lower files_only st lines = Ok st' /\
      P st'.
Proof.
  intros Hstep lines. induction lines as [|raw lines IH]; intros st HP; simpl.
  - now exists st.
  - destruct (loop_body_spec FILE_EXTENSIONS py_lower files_only st raw)
      as (st1 & E & _). rewrite E. simpl. apply IH. eapply Hstep; eassumption.
Qed.

(** X10. The items handed to [write_item_output] are, in order, the
    items seen that are files in files-only mode, and the items seen that
    are not files otherwise: in the all-items mode no file is written. *)
Theorem written_items lines :
  exists st,
    process_tree_file FILE_EXTENSIONS py_lower files_only lines = Ok st /\
    written st
    = List.filter (is_written FILE_EXTENSIONS py_lower files_only) (seen st).
Proof.
  apply (process_lines_preserves
           (fun st => written st
                      = List.filter
                          (is_written FILE_EXTENSIONS py_lower files_only)
                          (seen st))); [|reflexivity].
  intros st raw st' HP Hrun.
  destruct (loop_body_cases st raw) as [[_ E]|(_ & it & cp & path & _ & _ & H)].
  - rewrite E in Hrun. injection Hrun as <-. exact HP.
  - destruct (H st' Hrun) as (_ & _ & -> & -> & _).
    rewrite List.filter_app, <- HP. cbn [List.filter].
    change (is_written FILE_EXTENSIONS py_lower files_only
              (set_full_path it path))
      with (is_written FILE_EXTENSIONS py_lower files_only it).
    destruct (is_written _ _ _ it); [reflexivity|now rewrite app_nil_r].
Qed.

Lemma process_lines_line_nums lines st :
  exists st',
    process_lines FILE_EXTENSIONS py_lower files_only st lines = Ok st' /\
    map line_num (seen st')
    = map line_num (seen st)
      ++ item_positions (total_lines_processed st + 1) lines.
Proof.
  revert st. induction lines as [|raw lines IH]; intros st; simpl.
  - exists st. now rewrite app_nil_r.
  - destruct (loop_body_spec FILE_EXTENSIONS py_lower files_only st raw)
      as (st1 & E & _). rewrite E. simpl.
    destruct (IH st1) as (st' & -> & Hs). exists st'. split; [reflexivity|].
    rewrite Hs.
    destruct (loop_body_cases st raw) as [[Hy E1]|(Hy & it & cp & path & Hp & _ & H)].
    + rewrite E1 in E. injection E as <-. now rewrite Hy.
    + destruct (H st1 E) as (-> & _ & -> & _). rewrite Hy, map_app.
      apply parse_tree_line_Some in Hp as (g & _ & ->).
      now rewrite <- app_assoc.
Qed.

(** X11. The line numbers of the items seen are the 1-based positions,
    in the input, of the lines that yield an item: blank lines are counted
    although they yield nothing. *)
Theorem line_numbers lines :
  exists st,
    process_tree_file FILE_EXTENSIONS py_lower files_only lines = Ok st /\
    map line_num (seen st) = item_positions 1 lines.
Proof.
  destruct (process_lines_line_nums lines initial_state) as (st & E & H).
  exists st. split; [exact E|exact H].
Qed.

Lemma last_snoc_Some {A} (l : list A) (x : A) : last (l ++ [x]) = Some x.
Proof. apply last_snoc. Qed.

(** X12. After every run the path stack agrees with the last item seen:
    it is empty when no item was seen; otherwise its length is the level
    of that item plus one, its last entry is the name of that item, and it
    joins to the full path of that item. *)
Theorem stack_follows_last_item lines :
  exists st,
    process_tree_file FILE_EXTENSIONS py_lower files_only lines = Ok st /\
    stack_agrees st.
Proof.
  apply (process_lines_preserves stack_agrees); [|reflexivity].
  intros st raw st' HP Hrun. unfold stack_agrees in *.
  destruct (loop_body_cases st raw) as [[_ E]|(_ & it & cp & path & _ & Hup & H)].
  - rewrite E in Hrun. injection Hrun as <-. exact HP.
  - destruct (H st' Hrun) as (_ & -> & -> & _).
    rewrite last_snoc_Some.
    apply update_path_inv in Hup as (parent & HL & Hlen & -> & ->).
    cbn [indent_level item_name full_path set_full_path].
    rewrite last_snoc_Some, length_app. simpl. repeat split. lia.
Qed.

(** X13. Every extension in the tally has a count of at least 1 and,
    with its leading dot, is in the allow-list. *)
Theorem tally_entries_allowed lines :
  exists st,
    process_tree_file FILE_EXTENSIONS py_lower files_only lines = Ok st /\
    map_Forall (fun ext count => 1 <= count /\ lit "." ++ ext ∈ FILE_EXTENSIONS)
      (extensions st).
Proof.
  apply (process_lines_preserves
           (fun st => map_Forall
                        (fun ext count =>
                           1 <= count /\ lit "." ++ ext ∈ FILE_EXTENSIONS)
                        (extensions st))); [|apply map_Forall_empty].
  intros st raw st' HP Hrun.
  destruct (loop_body_cases st raw) as [[_ E]|(_ & it & cp & path & _ & _ & H)].
  - rewrite E in Hrun. injection Hrun as <-. exact HP.
  - destruct (H st' Hrun) as (_ & _ & _ & _ & _ & ->).
    destruct (is_file FILE_EXTENSIONS py_lower (item_name it)) eqn:Ef;
      [|exact HP].
    unfold incr. apply map_Forall_insert_2; [|exact HP]. split.
    + destruct (extensions st !! _) as [v|] eqn:Ev; simpl; [|lia].
      apply HP in Ev. lia.
    + unfold is_file in Ef. destruct (char_in _ _); [|discriminate].
      now apply bool_decide_eq_true in Ef.
Qed.
End RunMore.

(** ** Line breaks *)

Lemma drop_while_app_all p (s t : pystr) :
  Forall (fun c => p c = true) s -> drop_while p (s ++ t) = drop_while p t.
Proof.
  intros H. rewrite drop_while_app. now rewrite drop_while_all.
Qed.

Lemma rstrip_by_app_all p (s t : pystr) :
  Forall (fun c => p c = true) t -> rstrip_by p (s ++ t) = rstrip_by p s.
Proof.
  intros H. unfold rstrip_by. rewrite rev_app_distr.
  rewrite drop_while_app_all by now apply Forall_rev. reflexivity.
Qed.



(** ** The size annotation *)

Section SizeAnnotation.
Implicit Types (s t base ws inner name : pystr) (n : nat).

(** A star whose continuation fails wherever it can be tried fails. *)
Lemma star_none {A} p (k : @Re.kont A) n s :
  (forall n' x r, p x = true -> k n' (x :: r) = None) ->
  (forall n', k n' (drop_while p s) = None) ->
  Re.star p k n s = None.
Proof.
  intros Hrun Hstop. revert n.
  induction s as [|c s IH]; intros n; simpl in *; [apply Hstop|].
  destruct (p c) eqn:Ec; [|apply Hstop].
  rewrite IH by assumption. now apply Hrun.
Qed.

(** A star over a run of its class that ends at a character outside the
    class, where the continuation succeeds. *)
Lemma star_run {A} p (k : @Re.kont A) n run c r v :
  Forall (fun x => p x = true) run -> p c = false ->
  k (n + length run)%nat (c :: r) = Some v ->
  Re.star p k n (run ++ c :: r) = Some v.
Proof.
  intros Hrun Hc. revert n.
  induction Hrun as [|x run Hx _ IH]; intros n Hk; simpl in *.
  - rewrite Hc. now rewrite Nat.add_0_r in Hk.
  - rewrite Hx, (IH (S n)); [reflexivity|].
    now rewrite Nat.add_succ_r in Hk.
Qed.

Lemma sub_none (m : pystr -> option nat) repl s :
  (forall a t, s = a ++ t -> m t = None) -> Re.sub m repl 0 s = s.
Proof.
  induction s as [|c s IH]; intros H; [reflexivity|]. cbn [Re.sub].
  rewrite (H [] (c :: s) eq_refl). f_equal. apply IH.
  intros a t ->. now apply (H (c :: a) t).
Qed.

Lemma sub_skip_all (m : pystr -> option nat) repl s :
  Re.sub m repl (length s) s = [].
Proof. induction s as [|c s IH]; [reflexivity|exact IH]. Qed.

Lemma SIZE_PATTERN_match_no_paren s :
  Chr.LPAREN ∉ s -> SIZE_PATTERN_match s = None.
Proof.
  intros H. unfold SIZE_PATTERN_match. apply star_none.
  - intros n' x r Hx. unfold Re.one.
    destruct (N.eqb_spec Chr.LPAREN x) as [<-|]; [discriminate Hx|reflexivity].
  - intros n'. pose proof (take_drop_while isspace s) as E.
    destruct (drop_while isspace s) as [|x r]; [reflexivity|].
    unfold Re.one. destruct (N.eqb_spec Chr.LPAREN x) as [<-|]; [|reflexivity].
    exfalso. apply H. rewrite <- E. set_solver.
Qed.

Lemma strip_size_unchanged name :
  Chr.LPAREN ∉ name -> strip_size name = name.
Proof.
  intros H. unfold strip_size. apply sub_none. intros a t ->.
  apply SIZE_PATTERN_match_no_paren. intros Hin. apply H. set_solver.
Qed.

(** X15. A name without an opening parenthesis is left as it is by the
    size pattern, so [is_file] classifies it by its own last dot. *)
Theorem strip_size_no_paren name :
  Chr.LPAREN ∉ name -> strip_size name = name.
Proof.
  intros H. unfold strip_size. apply sub_none. intros a t ->.
  apply SIZE_PATTERN_match_no_paren. intros Hin. apply H. set_solver.
Qed.

Lemma ends_not_ws_drop s :
  s <> [] -> head_not_ws (rev s) = true -> drop_while isspace s <> [].
Proof.
  intros Hne Hl E. pose proof (take_drop_while isspace s) as Hs.
  rewrite E, app_nil_r in Hs.
  pose proof (take_while_all isspace s) as Hall. rewrite Hs in Hall.
  apply Forall_rev in Hall.
  destruct (rev s) as [|c r] eqn:Er.
  - apply (f_equal (@rev N)) in Er. rewrite rev_involutive in Er. contradiction.
  - apply Forall_cons in Hall as [Hc _]. simpl in Hl. now rewrite Hc in Hl.
Qed.

Lemma ends_not_ws_tail c s :
  s <> [] -> head_not_ws (rev (c :: s)) = true -> head_not_ws (rev s) = true.
Proof.
  intros Hne. simpl rev. destruct (rev s) as [|d r] eqn:Er; [|trivial].
  apply (f_equal (@rev N)) in Er. rewrite rev_involutive in Er. contradiction.
Qed.

Lemma SIZE_PATTERN_match_annotation ws inner :
  Forall (fun c => isspace c = true) ws -> Chr.RPAREN ∉ inner ->
  SIZE_PATTERN_match (ws ++ [Chr.LPAREN] ++ inner ++ [Chr.RPAREN])
  = Some (length (ws ++ [Chr.LPAREN] ++ inner ++ [Chr.RPAREN])).
Proof.
  intros Hws Hin. unfold SIZE_PATTERN_match.
  apply star_run; [assumption|reflexivity|]. unfold Re.one at 1. simpl N.eqb.
  cbv iota.
  apply (star_run (fun c => negb (c =? Chr.RPAREN)%N) _ _ inner Chr.RPAREN []).
  - apply Forall_forall. intros x Hx. apply negb_true_iff, N.eqb_neq.
    intros ->. contradiction.
  - reflexivity.
  - simpl. f_equal. rewrite !length_app. simpl. rewrite length_app. simpl. lia.
Qed.

Lemma SIZE_PATTERN_match_in_base t rest :
  t <> [] -> Chr.LPAREN ∉ t -> head_not_ws (rev t) = true ->
  SIZE_PATTERN_match (t ++ rest) = None.
Proof.
  intros Hne Hp Hl. unfold SIZE_PATTERN_match. apply star_none.
  - intros n' x r Hx. unfold Re.one.
    destruct (N.eqb_spec Chr.LPAREN x) as [<-|]; [discriminate Hx|reflexivity].
  - intros n'. rewrite drop_while_app.
    pose proof (ends_not_ws_drop t Hne Hl) as Hd.
    pose proof (take_drop_while isspace t) as E.
    destruct (drop_while isspace t) as [|x r]; [contradiction|].
    change ((x :: r) ++ rest) with (x :: (r ++ rest)). unfold Re.one.
    destruct (N.eqb_spec Chr.LPAREN x) as [<-|]; [|reflexivity].
    exfalso. apply Hp. rewrite <- E. set_solver.
Qed.

Lemma strip_size_base base tail k :
  Chr.LPAREN ∉ base -> head_not_ws (rev base) = true ->
  SIZE_PATTERN_match tail = Some (S k) -> length tail = S k ->
  strip_size (base ++ tail) = base.
Proof.
  intros Hp Hl Hm Hlen. unfold strip_size.
  induction base as [|c base IH].
  - destruct tail as [|d tail]; [discriminate Hlen|].
    simpl app. cbn [Re.sub]. rewrite Hm. injection Hlen as <-.
    apply sub_skip_all.
  - change ((c :: base) ++ tail) with (c :: (base ++ tail)). cbn [Re.sub].
    change (c :: (base ++ tail)) with ((c :: base) ++ tail).
    rewrite SIZE_PATTERN_match_in_base by (assumption || discriminate).
    f_equal. destruct base as [|d base].
    + simpl app. destruct tail as [|e tail]; [discriminate Hlen|].
      cbn [Re.sub]. rewrite Hm. injection Hlen as <-. apply sub_skip_all.
    + apply IH.
      * intros Hin. apply Hp. now right.
      * apply (ends_not_ws_tail c); [discriminate|assumption].
Qed.

(** X16. A trailing annotation is removed whole: for a base name that
    has no opening parenthesis and does not end with white space, followed
    by any white space and a parenthesized text without a closing
    parenthesis inside, the size pattern leaves the base name; so
    [is_file] gives the annotated name the class of the base name. *)
Theorem strip_size_annotation FILE_EXTENSIONS py_lower base ws inner :
  Chr.LPAREN ∉ base -> head_not_ws (rev base) = true ->
  Forall (fun c => isspace c = true) ws -> Chr.RPAREN ∉ inner ->
  strip_size (base ++ ws ++ [Chr.LPAREN] ++ inner ++ [Chr.RPAREN]) = base /\
  is_file FILE_EXTENSIONS py_lower
    (base ++ ws ++ [Chr.LPAREN] ++ inner ++ [Chr.RPAREN])
  = is_file FILE_EXTENSIONS py_lower base.
Proof.
  intros Hp Hl Hws Hin.
  assert (E : strip_size (base ++ ws ++ [Chr.LPAREN] ++ inner ++ [Chr.RPAREN])
              = base).
  { pose proof (SIZE_PATTERN_match_annotation ws inner Hws Hin) as Hm.
    destruct (length (ws ++ [Chr.LPAREN] ++ inner ++ [Chr.RPAREN])) as [|k] eqn:Ek.
    - rewrite length_app in Ek. simpl in Ek. lia.
    - now apply (strip_size_base base _ k). }
  split; [exact E|]. unfold is_file. now rewrite E, strip_size_unchanged.
Qed.
End SizeAnnotation.

Lemma strip_size_no_paren_witness :
  strip_size (lit "archive.tar.gz") = lit "archive.tar.gz".
Proof.
  apply (strip_size_no_paren (lit "archive.tar.gz")).
  vm_compute. intros H. apply list_elem_of_In in H. simpl in H.
  intuition discriminate.
Defined.

Lemma strip_size_annotation_witness :
  strip_size (lit "archive.tar.gz" ++ lit " " ++ [Chr.LPAREN] ++ lit "1.2 MB"
              ++ [Chr.RPAREN]) = lit "archive.tar.gz" /\
  is_file [lit ".gz"] (map ascii_lower)
    (lit "archive.tar.gz" ++ lit " " ++ [Chr.LPAREN] ++ lit "1.2 MB"
     ++ [Chr.RPAREN])
  = is_file [lit ".gz"] (map ascii_lower) (lit "archive.tar.gz").
Proof.
  apply (strip_size_annotation [lit ".gz"] (map ascii_lower)
           (lit "archive.tar.gz") (lit " ") (lit "1.2 MB")).
  - vm_compute. intros H. apply list_elem_of_In in H. simpl in H.
    intuition discriminate.
  - reflexivity.
  - repeat constructor.
  - vm_compute. intros H. apply list_elem_of_In in H. simpl in H.
    intuition discriminate.
Defined.

(** ** The writers *)

Example format_comma_ex1 : format_comma 1234567 = lit "1,234,567".
Proof. reflexivity. Qed.

Example format_comma_ex2 : format_comma (-1234) = lit "-1,234".
Proof. reflexivity. Qed.

Example format_comma_ex3 : format_comma 999 = lit "999".
Proof. reflexivity. Qed.

Example sorted_by_count_ex1 :
  sorted_by_count [(lit "a", 1); (lit "b", 3); (lit "c", 1); (lit "d", 3)]
  = [(lit "b", 3); (lit "d", 3); (lit "a", 1); (lit "c", 1)].
Proof. reflexivity. Qed.

Example write_item_output_ex1 :
  write_item_output true
    (set_full_path (mk_item 12 [] 1 (lit "a.txt")) (lit "Root/a.txt"))
  = Some (lit "Line 12 (Level 1):" ++ [Chr.LF]
          ++ lit "  Item Name: 'a.txt'" ++ [Chr.LF]
          ++ lit "  Full Path: 'Root/a.txt'" ++ [Chr.LF]
          ++ lit "--------------------" ++ [Chr.LF]).
Proof. reflexivity. Qed.

Section Writers.
Implicit Types (text a : pystr) (c : N) (z : Z) (it : item).

Lemma emit_same text :
  (exists a c, text = a ++ [c; Chr.LF] /\ isspace c = false) ->
  emit false text = emit true text.
Proof.
  intros (a & c & -> & Hc). unfold emit.
  change (a ++ [c; Chr.LF]) with (a ++ [c] ++ [Chr.LF]).
  rewrite app_assoc, rstrip_by_app_all by (repeat constructor).
  unfold rstrip_by. rewrite rev_app_distr. simpl. rewrite Hc.
  simpl. now rewrite rev_involutive, <- app_assoc.
Qed.

Lemma ends_app (s t : pystr) :
  (exists a c, t = a ++ [c; Chr.LF] /\ isspace c = false) ->
  exists a c, s ++ t = a ++ [c; Chr.LF] /\ isspace c = false.
Proof.
  intros (a & c & -> & Hc). exists (s ++ a), c.
  split; [now rewrite <- app_assoc|assumption].
Qed.

Lemma is_digit_not_ws c : is_digit c = true -> isspace c = false.
Proof.
  unfold is_digit, isspace. intros H. apply andb_prop in H as [H1 H2].
  apply N.leb_le in H1, H2.
  assert (Hle : forall k, (k < 0x30)%N -> (c <=? k)%N = false)
    by (intros k Hk; apply N.leb_gt; lia).
  assert (Hge : forall k, (0x39 < k)%N -> (k <=? c)%N = false)
    by (intros k Hk; apply N.leb_gt; lia).
  assert (Heq : forall k, (0x39 < k)%N -> (c =? k)%N = false)
    by (intros k Hk; apply N.eqb_neq; lia).
  rewrite (Hle 0x0D%N), (Hle 0x20%N), (Hge 0x2000%N) by reflexivity.
  rewrite (Heq 0x85%N), (Heq 0xA0%N), (Heq 0x1680%N), (Heq 0x2028%N),
    (Heq 0x2029%N), (Heq 0x202F%N), (Heq 0x205F%N), (Heq 0x3000%N)
    by reflexivity.
  now rewrite !andb_false_r.
Qed.

Lemma uint_chars_digits u : Forall (fun c => is_digit c = true) (uint_chars u).
Proof. induction u; simpl; constructor; (reflexivity || assumption). Qed.

Lemma uint_chars_nonempty p : uint_chars (Pos.to_uint p) <> [].
Proof.
  pose proof (DecimalPos.Unsigned.to_uint_nonnil p) as H.
  destruct (Pos.to_uint p); (contradiction || discriminate).
Qed.

Lemma commas_head c s : exists s', commas (c :: s) = c :: s'.
Proof.
  destruct s as [|b [|d [|e s]]]; simpl; eexists; reflexivity.
Qed.

(** The digits of a number in groups end with a digit. *)
Lemma format_comma_end z :
  exists a c, format_comma z = a ++ [c] /\ isspace c = false.
Proof.
  assert (H : forall p, exists a c,
               rev (commas (rev (uint_chars (Pos.to_uint p)))) = a ++ [c] /\
               isspace c = false).
  { intros p. pose proof (uint_chars_digits (Pos.to_uint p)) as Hd.
    pose proof (uint_chars_nonempty p) as Hne.
    apply Forall_rev in Hd.
    destruct (rev (uint_chars (Pos.to_uint p))) as [|c r] eqn:Er.
    - apply (f_equal (@rev N)) in Er. rewrite rev_involutive in Er. contradiction.
    - destruct (commas_head c r) as (s' & ->). exists (rev s'), c.
      split; [reflexivity|]. apply is_digit_not_ws.
      now apply Forall_cons in Hd as [Hc _]. }
  destruct z as [|p|p]; simpl.
  - exists [], 0x30%N. split; reflexivity.
  - apply H.
  - destruct (H p) as (a & c & -> & Hc). exists (lit "-" ++ a), c.
    split; [now rewrite <- app_assoc|assumption].
Qed.

Lemma foldl_lines (g : pystr * Z -> pystr) base l :
  foldl (fun text entry => text ++ g entry) base l = base ++ concat (map g l).
Proof.
  revert base. induction l as [|x l IH]; intros base; simpl.
  - now rewrite app_nil_r.
  - now rewrite IH, <- app_assoc.
Qed.

Lemma insert_by_count_length x l :
  length (insert_by_count x l) = S (length l).
Proof.
  induction l as [|y l IH]; simpl; [reflexivity|].
  destruct (snd x <? snd y); simpl; [now rewrite IH|reflexivity].
Qed.

Lemma sorted_by_count_length l : length (sorted_by_count l) = length l.
Proof.
  induction l as [|x l IH]; simpl; [reflexivity|].
  now rewrite insert_by_count_length, IH.
Qed.

(** X17. Each writer sends the same characters to the console as to the
    output file: the text of [write_item_output], [write_section_header]
    and [write_statistics] ends with one line feed after a character that
    is not white space, so that [rstrip] followed by the line feed of
    [print] gives the text back. *)
Theorem writers_console_as_file :
  (forall it, write_item_output false it = write_item_output true it) /\
  (forall title, write_section_header false title
                 = write_section_header true title) /\
  (forall total_lines files_count extensions files_only,
     write_statistics false total_lines files_count extensions files_only
     = write_statistics true total_lines files_count extensions files_only).
Proof.
  split; [|split].
  - intros it. unfold write_item_output.
    destruct (full_path it) as [path|]; [|reflexivity]. f_equal.
    apply emit_same, ends_app.
    exists (replicate 19 0x2D%N), 0x2D%N. split; reflexivity.
  - intros title. unfold write_section_header.
    apply emit_same. do 3 apply ends_app.
    exists (lit " --"), 0x2D%N. split; reflexivity.
  - intros tl fc exts fo. unfold write_statistics.
    destruct (match exts with [] => false | _ :: _ => true end && fo) eqn:Eb.
    + rewrite foldl_lines.
      assert (Hne : sorted_by_count exts <> []).
      { intros E. apply (f_equal (@length _)) in E.
        rewrite sorted_by_count_length in E.
        destruct exts; [discriminate Eb|discriminate E]. }
      destruct (exists_last Hne) as (l' & e & ->).
      rewrite map_app, concat_app. apply emit_same. do 2 apply ends_app.
      cbn [map concat]. rewrite app_nil_r. unfold file_type_line.
      do 4 apply ends_app.
      exists (lit " file"), 0x73%N. split; reflexivity.
    + apply emit_same. do 2 apply ends_app.
      destruct (format_comma_end fc) as (a & c & -> & Hc).
      exists a, c. split; [now rewrite <- app_assoc|assumption].
Qed.

Lemma counts_decreasing_insert x l :
  counts_decreasing l = true -> counts_decreasing (insert_by_count x l) = true.
Proof.
  induction l as [|y l IH]; [reflexivity|].
  intros H. cbn [insert_by_count]. destruct (Z.ltb_spec (snd x) (snd y)) as [Hlt|Hge].
  - cbn [counts_decreasing] in *. apply andb_prop in H as [H1 H2].
    rewrite (IH H2), andb_true_r.
    destruct l as [|w l]; cbn [insert_by_count].
    + apply Z.leb_le. lia.
    + destruct (Z.ltb_spec (snd x) (snd w)); [exact H1|apply Z.leb_le; lia].
  - change (counts_decreasing (x :: y :: l))
      with ((snd y <=? snd x) && counts_decreasing (y :: l)).
    rewrite H, andb_true_r. now apply Z.leb_le.
Qed.

Lemma insert_by_count_perm x l : insert_by_count x l ≡ₚ x :: l.
Proof.
  induction l as [|y l IH]; simpl; [reflexivity|].
  destruct (snd x <? snd y); [|reflexivity].
  rewrite IH. apply Permutation_swap.
Qed.

(** X18. The file types of the statistics are listed by decreasing
    count: the sorted entries are the entries of the tally, each once, and
    the count never goes up from one to the next. *)
Theorem sorted_by_count_spec (entries : list (pystr * Z)) :
  sorted_by_count entries ≡ₚ entries /\
  counts_decreasing (sorted_by_count entries) = true.
Proof.
  induction entries as [|x l [IHp IHs]]; [split; reflexivity|]. simpl. split.
  - rewrite insert_by_count_perm. now rewrite IHp.
  - now apply counts_decreasing_insert.
Qed.
End Writers.

(** X19. [write_item_output] never fails on an item that
    [process_tree_file] hands it: every item seen, and so every item
    written, has its full path set. *)
Theorem written_items_have_path FILE_EXTENSIONS py_lower files_only to_file lines :
  exists st,
    process_tree_file FILE_EXTENSIONS py_lower files_only lines = Ok st /\
    Forall (fun it => is_Some (write_item_output to_file it)) (seen st) /\
    Forall (fun it => is_Some (write_item_output to_file it)) (written st).
Proof.
  destruct (process_lines_preserves FILE_EXTENSIONS py_lower files_only
              (fun st =>
                 Forall (fun it => is_Some (write_item_output to_file it))
                   (seen st) /\
                 Forall (fun it => is_Some (write_item_output to_file it))
                   (written st))) with (lines := lines) (st := initial_state)
    as (st & Hrun & H).
  - intros st raw st' [HPs HPw] Hrun.
    destruct (loop_body_cases FILE_EXTENSIONS py_lower files_only st raw)
      as [[_ E]|(_ & it & cp & path & _ & _ & H)].
    + rewrite E in Hrun. injection Hrun as <-. now split.
    + destruct (H st' Hrun) as (_ & _ & -> & -> & _).
      assert (Hit : is_Some (write_item_output to_file (set_full_path it path)))
        by (unfold write_item_output; simpl; eauto).
      split.
      * apply Forall_app. split; [assumption|]. now constructor.
      * destruct (is_written _ _ _ it); [|assumption].
        apply Forall_app. split; [assumption|]. now constructor.
  - split; constructor.
  - exists st. now split.
Qed.

(** ** Where the characters of a name come from *)

Section NameChars.
Implicit Types (s raw : pystr) (c : N).

Lemma sub_ws_chars k s c :
  c ∈ Re.sub ws_run_match (lit " ") k s -> c ∈ s \/ c = Chr.SPACE.
Proof.
  revert k. induction s as [|d s IH]; intros k; cbn [Re.sub].
  - intros H. now left.
  - destruct k as [|k].
    + rewrite ws_run_match_eq. destruct (isspace d).
      * change (lit " " ++ ?x) with (Chr.SPACE :: x). intros H.
        apply elem_of_cons in H as [->|H]; [now right|].
        destruct (IH _ H) as [Hin| ->]; [left; now right|now right].
      * intros H. apply elem_of_cons in H as [->|H]; [left; left|].
        destruct (IH _ H) as [Hin| ->]; [left; now right|now right].
    + intros H. destruct (IH _ H) as [Hin| ->]; [left; now right|now right].
Qed.

Lemma strip_chars s c : c ∈ strip s -> c ∈ s.
Proof.
  destruct (strip_infix s) as (a & b & E). intros H. rewrite E. set_solver.
Qed.

(** X20. The parser invents nothing: every character of a name it
    returns is a character of the line or a plain space. *)
Theorem parse_tree_line_name_chars (n : Z) raw (it : item) :
  parse_tree_line n raw = Some it ->
  Forall (fun c => c ∈ raw \/ c = Chr.SPACE) (item_name it).
Proof.
  intros H. apply parse_tree_line_Some in H as (g & Hg & ->).
  cbn [item_name mk_item]. apply Forall_forall. intros c Hc.
  apply strip_chars, sub_ws_chars in Hc as [Hc|Hc]; [left|now right].
  apply strip_chars in Hc.
  rewrite TREE_PREFIX_PATTERN_match_eq in Hg. simpl in Hg.
  destruct (at_end _); [|discriminate]. injection Hg as <-.
  rewrite <- (take_drop_while prefix_class raw).
  rewrite <- (take_drop_while Re.dot (drop_while prefix_class raw)).
  set_solver.
Qed.
End NameChars.

Lemma parse_tree_line_name_chars_witness :
  parse_tree_line 3 sample_line = Some (mk_item 3 sample_line 2 (lit "my file.txt"))
  /\ Forall (fun c => c ∈ sample_line \/ c = Chr.SPACE) (lit "my file.txt").
Proof.
  split; [reflexivity|].
  apply (parse_tree_line_name_chars 3 sample_line
           (mk_item 3 sample_line 2 (lit "my file.txt"))).
  reflexivity.
Defined.
